(** * Text Expander Manager: the query, pagination, export and copy logic

  A shallow embedding of [src/types.ts] and of the logic of the [App]
  component of [src/App.tsx], with the properties its specification
  states about them.

  Conventions.
  - A JavaScript string is a [string]: a sequence of code units, each an
    [ascii] character.
  - A JavaScript number that holds an array length, a page number or an
    index is a [Z]; the quotient that [Math.ceil] rounds is an exact
    rational ([Q]).
  - An array is a [list].
  - What [App] does to the outside world (the clipboard, the toast) is a
    list of [Effect]s, in the order they happen. *)

From Stdlib Require Import List String Ascii Bool ZArith QArith Qround Lia.
From Stdlib Require Import Numbers.DecimalString.
From Stdlib Require Numbers.DecimalPos Numbers.DecimalZ.
Import ListNotations.

Local Open Scope string_scope.
Local Open Scope Z_scope.

(* ===================================================================== *)
(** ** src/types.ts *)
(* ===================================================================== *)

(** [interface ShortcutData { k: string; e: string; s: string }] *)
Record ShortcutData : Type := mkShortcut {
  k : string;  (* keyword/shortcut *)
  e : string;  (* expansion *)
  s : string   (* section/language *)
}.

(** [type SectionFilter = 'all' | 'universal' | 'spanish' | 'english'] *)
Inductive SectionFilter : Type :=
| all
| universal
| spanish
| english.

(** The string literal each member of [SectionFilter] is. *)
Definition tabId (t : SectionFilter) : string :=
  match t with
  | all => "all"
  | universal => "universal"
  | spanish => "spanish"
  | english => "english"
  end.

Definition SectionFilter_eqb (a b : SectionFilter) : bool :=
  match a, b with
  | all, all | universal, universal | spanish, spanish | english, english => true
  | _, _ => false
  end.

(** [ToastMessage.type] *)
Inductive ToastType : Type :=
| success
| error
| info.

(* ===================================================================== *)
(** ** The host operations [App] calls *)
(* ===================================================================== *)

Module JS.

(** [String.prototype.includes]: [sub] occurs in [str] as a contiguous
    run of code units. *)
Fixpoint includes (str sub : string) : bool :=
  match str with
  | EmptyString => String.prefix sub EmptyString
  | String _ rest => String.prefix sub str || includes rest sub
  end.

(** [str.replace(/c/g, by)] for a pattern that is the one character [c]. *)
Fixpoint replaceAll (c : ascii) (by_ : string) (str : string) : string :=
  match str with
  | EmptyString => EmptyString
  | String a rest =>
      (if Ascii.eqb a c then by_ else String a EmptyString)
        ++ replaceAll c by_ rest
  end.

(** [Array.prototype.join] on an array of strings. *)
Fixpoint join (sep : string) (parts : list string) : string :=
  match parts with
  | [] => ""
  | [x] => x
  | x :: rest => x ++ sep ++ join sep rest
  end.

(** A relative index of [Array.prototype.slice]: negative counts from the
    end, and the result is clamped to [0 .. len]. *)
Definition relativeIndex (len i : Z) : Z :=
  if i <? 0 then Z.max (len + i) 0 else Z.min i len.

(** [Array.prototype.slice(start, end)]. *)
Definition slice {A : Type} (arr : list A) (start end_ : Z) : list A :=
  let len := Z.of_nat (List.length arr) in
  let from := relativeIndex len start in
  let final := relativeIndex len end_ in
  firstn (Z.to_nat (final - from)) (skipn (Z.to_nat from) arr).

(** [Math.ceil(a / b)] for integers [a] and [b <> 0]. (For array lengths
    the quotient of two doubles rounds to the same ceiling as the exact
    quotient. For [b = 0] JavaScript gives [Infinity] or [NaN], which this
    model does not represent.) *)
Definition ceil_div (a b : Z) : Z :=
  Qceiling (inject_Z a / inject_Z b).

(** The decimal numeral of a number that is an integer, as a template
    literal prints it. *)
Definition numberToString (n : Z) : string :=
  NilZero.string_of_int (Z.to_int n).

End JS.

(** ASCII lower-casing, the restriction of [String.prototype.toLowerCase]
  to code units below 128; used to run the definitions on examples. *)
Definition ascii_toLower (c : ascii) : ascii :=
  let n := nat_of_ascii c in
  if (Nat.leb 65 n && Nat.leb n 90)%bool then ascii_of_nat (n + 32) else c.

Fixpoint ascii_toLowerCase (str : string) : string :=
  match str with
  | EmptyString => EmptyString
  | String c rest => String (ascii_toLower c) (ascii_toLowerCase rest)
  end.

(* ===================================================================== *)
(** ** src/App.tsx: the filter *)
(* ===================================================================== *)

Section Filter.

(** [String.prototype.toLowerCase], a table of the host. *)
Variable toLowerCase : string -> string.

(** The category step of [filteredData] (lines 56-58): the tab
    ['universal'] keeps the records tagged ['all']. *)
Definition categoryStep (activeTab : SectionFilter)
    (data : list ShortcutData) : list ShortcutData :=
  match activeTab with
  | universal => filter (fun i => String.eqb (s i) "all") data
  | spanish => filter (fun i => String.eqb (s i) "spanish") data
  | english => filter (fun i => String.eqb (s i) "english") data
  | all => data
  end.

(** The text step of [filteredData] (lines 60-66). [if (searchTerm)] holds
    for every string but the empty one. *)
Definition textStep (searchTerm : string)
    (data : list ShortcutData) : list ShortcutData :=
  if negb (String.eqb searchTerm "") then
    let lower := toLowerCase searchTerm in
    filter (fun i =>
              JS.includes (toLowerCase (k i)) lower
              || JS.includes (toLowerCase (e i)) lower) data
  else data.

(** [filteredData] (lines 53-68), as a function of the catalog that the
    source reads from [EXPANSIONS_DATA]. *)
Definition filteredData (data : list ShortcutData)
    (activeTab : SectionFilter) (searchTerm : string) : list ShortcutData :=
  textStep searchTerm (categoryStep activeTab data).

(** *** The two steps as the specification words them *)

(** A case-insensitive substring match of [needle] against [field]. *)
Definition matchesText (needle field : string) : bool :=
  JS.includes (toLowerCase field) (toLowerCase needle).

(** The text step of the specification: a non-empty search text keeps the
    records whose keyword or expansion matches; an empty one keeps all. *)
Definition passesText (searchText : string) (r : ShortcutData) : bool :=
  if String.eqb searchText "" then true
  else matchesText searchText (k r) || matchesText searchText (e r).

(** The category step of the specification: a filter other than [all]
    keeps the records whose category equals it. *)
Definition passesCategory_spec (c : SectionFilter) (r : ShortcutData) : bool :=
  match c with
  | all => true
  | _ => String.eqb (s r) (tabId c)
  end.

(** The tag a record of each section carries in the catalog: the
    universal section is tagged ['all'] (lines 46 and 56). *)
Definition sectionTag (c : SectionFilter) : string :=
  match c with
  | universal => "all"
  | _ => tabId c
  end.

(** The category step of the code. *)
Definition passesCategory (c : SectionFilter) (r : ShortcutData) : bool :=
  match c with
  | all => true
  | _ => String.eqb (s r) (sectionTag c)
  end.

End Filter.

(* ===================================================================== *)
(** ** src/App.tsx: pagination *)
(* ===================================================================== *)

(** [totalPages] (line 71). *)
Definition totalPages (filteredData : list ShortcutData) (itemsPerPage : Z) : Z :=
  JS.ceil_div (Z.of_nat (List.length filteredData)) itemsPerPage.

(** [paginatedData] (lines 72-75). *)
Definition paginatedData (filteredData : list ShortcutData)
    (itemsPerPage currentPage : Z) : list ShortcutData :=
  let start := (currentPage - 1) * itemsPerPage in
  JS.slice filteredData start (start + itemsPerPage).

(** The condition under which the pagination controls are rendered
    (line 327). *)
Definition paginationShown (filteredData : list ShortcutData)
    (itemsPerPage : Z) : bool :=
  Z.of_nat (List.length filteredData) >? itemsPerPage.

(** The half-open slice [l[a : b]] of the specification, on natural
    indices: the elements at positions [a <= i < b], an end past the
    length clipping. *)
Definition halfOpen {A : Type} (l : list A) (a b : nat) : list A :=
  skipn a (firstn b l).

(** The page numbers [1 .. n]. *)
Definition pageNumbers (n : Z) : list Z :=
  map (fun i => Z.of_nat i + 1) (seq 0 (Z.to_nat n)).

(** All the pages of a filtered sequence, first to last. *)
Definition allPages (filteredData : list ShortcutData)
    (itemsPerPage : Z) : list (list ShortcutData) :=
  map (paginatedData filteredData itemsPerPage)
      (pageNumbers (totalPages filteredData itemsPerPage)).

(* ===================================================================== *)
(** ** src/App.tsx: the delimited-text export *)
(* ===================================================================== *)

(** The double quote and the line feed. *)
Definition dquote : ascii := Ascii.ascii_of_nat 34.
Definition lf : ascii := Ascii.ascii_of_nat 10.
Definition DQ : string := String dquote EmptyString.
Definition LF : string := String lf EmptyString.

(** The replacement of every double quote by two (lines 110-111). *)
Definition doubleQuotes (str : string) : string :=
  JS.replaceAll dquote (DQ ++ DQ) str.

(** The replacement of every line feed by a space (line 111). *)
Definition newlinesToSpaces (str : string) : string :=
  JS.replaceAll lf " " str.

(** The body of the [forEach] of [exportCSV] (lines 110-112): what one
    record appends to [csv]. *)
Definition csvLine (r : ShortcutData) : string :=
  let k' := doubleQuotes (k r) in
  let exp := newlinesToSpaces (doubleQuotes (e r)) in
  DQ ++ k' ++ DQ ++ "," ++ DQ ++ exp ++ DQ ++ "," ++ DQ ++ s r ++ DQ ++ LF.

(** The text [exportCSV] hands to the [Blob] (lines 108-113). *)
Definition csvText (filteredData : list ShortcutData) : string :=
  fold_left (fun csv r => csv ++ csvLine r) filteredData
            ("Shortcut,Expansion,Language" ++ LF).

(** *** The format as the specification words it *)

Definition csvHeader : string := "Shortcut,Expansion,Language".

(** A field enclosed in double quotes, its own double quotes doubled. *)
Definition quotedField (field : string) : string :=
  DQ ++ doubleQuotes field ++ DQ.

(** One record's line as the specification states it: keyword, expansion
    (newlines turned into spaces), category, each quoted and escaped. *)
Definition recordLine_spec (r : ShortcutData) : string :=
  quotedField (k r) ++ "," ++ quotedField (newlinesToSpaces (e r)) ++ ","
    ++ quotedField (s r) ++ LF.

Definition toDelimitedText_spec (records : list ShortcutData) : string :=
  csvHeader ++ LF ++ String.concat "" (map recordLine_spec records).

(** The same line with the category enclosed in quotes as it is. *)
Definition recordLine (r : ShortcutData) : string :=
  quotedField (k r) ++ "," ++ quotedField (newlinesToSpaces (e r)) ++ ","
    ++ DQ ++ s r ++ DQ ++ LF.

Definition toDelimitedText (records : list ShortcutData) : string :=
  csvHeader ++ LF ++ String.concat "" (map recordLine records).

(** The character [c] occurs in [str]. *)
Fixpoint hasChar (c : ascii) (str : string) : bool :=
  match str with
  | EmptyString => false
  | String a rest => Ascii.eqb a c || hasChar c rest
  end.

(** How many times [c] occurs in [str]; with the line feed, the number of
    lines of a text that ends in one. *)
Fixpoint countChar (c : ascii) (str : string) : nat :=
  match str with
  | EmptyString => 0%nat
  | String a rest =>
      ((if Ascii.eqb a c then 1 else 0) + countChar c rest)%nat
  end.

(* ===================================================================== *)
(** ** src/App.tsx: the structured-text export *)
(* ===================================================================== *)

(** The JSON values [JSON.stringify] meets in [filteredData]. *)
#[warnings="-register-all"]
Inductive JSONValue : Type :=
| JString (str : string)
| JArray (items : list JSONValue)
| JObject (props : list (string * JSONValue)).

Module JSON.

Definition hexDigit (n : nat) : ascii :=
  nth n (list_ascii_of_string "0123456789abcdef") "0"%char.

(** One code unit inside [QuoteJSONString]. *)
Definition quoteChar (c : ascii) : string :=
  let n := nat_of_ascii c in
  if Nat.eqb n 34 then "\" ++ DQ
  else if Nat.eqb n 92 then "\\"
  else if Nat.eqb n 8 then "\b"
  else if Nat.eqb n 9 then "\t"
  else if Nat.eqb n 10 then "\n"
  else if Nat.eqb n 12 then "\f"
  else if Nat.eqb n 13 then "\r"
  else if Nat.ltb n 32 then
    "\u00" ++ String (hexDigit (Nat.div n 16))
                     (String (hexDigit (Nat.modulo n 16)) EmptyString)
  else String c EmptyString.

Fixpoint quoteBody (str : string) : string :=
  match str with
  | EmptyString => EmptyString
  | String c rest => quoteChar c ++ quoteBody rest
  end.

(** [QuoteJSONString] *)
Definition quote (str : string) : string := DQ ++ quoteBody str ++ DQ.

(** The brackets of [SerializeJSONArray] and [SerializeJSONObject] around
    the already serialized elements [partial]; [indent] is the indentation
    of the elements and [stepback] the one of the closing bracket. *)
Definition wrap (open close gap stepback indent : string)
    (partial : list string) : string :=
  match partial with
  | [] => open ++ close
  | _ =>
      if String.eqb gap "" then open ++ JS.join "," partial ++ close
      else open ++ LF ++ indent ++ JS.join ("," ++ LF ++ indent) partial
             ++ LF ++ stepback ++ close
  end.

(** [SerializeJSONProperty] with the gap [gap], at indentation [indent]. *)
Fixpoint serialize (gap indent : string) (v : JSONValue) : string :=
  match v with
  | JString str => quote str
  | JArray items =>
      wrap "[" "]" gap indent (indent ++ gap)
           (map (serialize gap (indent ++ gap)) items)
  | JObject props =>
      wrap "{" "}" gap indent (indent ++ gap)
           (map (fun p => quote (fst p) ++ ":"
                            ++ (if String.eqb gap "" then "" else " ")
                            ++ serialize gap (indent ++ gap) (snd p)) props)
  end.

(** [JSON.stringify(value, null, 2)] *)
Definition stringify2 (v : JSONValue) : string := serialize "  " "" v.

End JSON.

(** A [ShortcutData] object as [JSON.stringify] sees it: its own
    properties, in the order the interface declares them. *)
Definition recordValue (r : ShortcutData) : JSONValue :=
  JObject [("k", JString (k r)); ("e", JString (e r)); ("s", JString (s r))].

Definition arrayValue (filteredData : list ShortcutData) : JSONValue :=
  JArray (map recordValue filteredData).

(** The text [exportJSON] hands to the [Blob] (line 123). *)
Definition jsonText (filteredData : list ShortcutData) : string :=
  JSON.stringify2 (arrayValue filteredData).

(** The field names of a serialized object, in order. *)
Definition fieldNames (v : JSONValue) : list string :=
  match v with
  | JObject props => map fst props
  | _ => []
  end.

(** The items of a serialized array. *)
Definition arrayItems (v : JSONValue) : option (list JSONValue) :=
  match v with
  | JArray items => Some items
  | _ => None
  end.

(** The field names of an object are exactly [names], in any order. *)
Definition namedExactly (names : list string) (v : JSONValue) : Prop :=
  forall n, In n (fieldNames v) <-> In n names.

(** One member of an object at the second level of indentation. *)
Definition memberText (name value : string) : string :=
  "    " ++ DQ ++ name ++ DQ ++ ": " ++ JSON.quote value.

(** The text of one record inside the exported array. *)
Definition recordText (r : ShortcutData) : string :=
  "{" ++ LF ++ memberText "k" (k r) ++ "," ++ LF
      ++ memberText "e" (e r) ++ "," ++ LF
      ++ memberText "s" (s r) ++ LF ++ "  }".

(* ===================================================================== *)
(** ** src/App.tsx: the actions *)
(* ===================================================================== *)

(** What an action does to the outside world. *)
Inductive Effect : Type :=
| ShowToast (message : string) (type : ToastType)
    (* showToast (lines 83-86); the id and the 3000 ms timer are left out *)
| ClipboardWrite (text : string)
    (* navigator.clipboard.writeText *)
| SetCopiedId (id : string)
    (* setCopiedId (line 92); the 1500 ms timer is left out *)
| Download (filename mime content : string).
    (* a Blob behind a link that is clicked *)

(** How the promise of [navigator.clipboard.writeText] settles. *)
Inductive ClipboardOutcome : Type :=
| Resolved
| Rejected.

(** An action: what it does before it returns, and what the callbacks it
    left on the clipboard promise do once the promise settles. An action
    that writes nothing to the clipboard leaves no callback. *)
Record Action : Type := mkAction {
  sync : list Effect;
  settled : option (ClipboardOutcome -> list Effect)
}.

(** The effects of an action in the order they happen: promise callbacks
    run after the code that registered them has returned. *)
Definition trace (a : Action) (outcome : ClipboardOutcome) : list Effect :=
  sync a ++ match settled a with
            | Some callbacks => callbacks outcome
            | None => []
            end.

(** [showToast] with its default type (line 83). *)
Definition showToast (message : string) (type : option ToastType) : Effect :=
  ShowToast message match type with Some t => t | None => success end.

(** [copyToClipboard] (lines 88-98). [if (id)] fails for a missing id and
    for the empty string. *)
Definition copyToClipboard (text : string) (id : option string) : Action :=
  {| sync := [ClipboardWrite text];
     settled := Some (fun outcome =>
       match outcome with
       | Resolved =>
           showToast "Copied to clipboard!" (Some success)
           :: match id with
              | Some i => if String.eqb i "" then [] else [SetCopiedId i]
              | None => []
              end
       | Rejected => [showToast "Failed to copy" (Some error)]
       end) |}.

(** [copyVisible] (lines 100-105). *)
Definition copyVisible (filteredData : list ShortcutData) : Action :=
  if Z.of_nat (List.length filteredData) =? 0 then
    {| sync := [showToast "Nothing to copy" (Some info)]; settled := None |}
  else
    let text := JS.join LF (map e filteredData) in
    let copy := copyToClipboard text None in
    {| sync := sync copy
               ++ [showToast ("Copied "
                              ++ JS.numberToString (Z.of_nat (List.length filteredData))
                              ++ " items!") (Some success)];
       settled := settled copy |}.

(** [exportCSV] (lines 107-120). *)
Definition exportCSV (filteredData : list ShortcutData) : Action :=
  {| sync := [Download "gboard_shortcuts.csv" "text/csv;charset=utf-8;"
                       (csvText filteredData);
              showToast "CSV Exported Successfully" None];
     settled := None |}.

(** [exportJSON] (lines 122-129). *)
Definition exportJSON (filteredData : list ShortcutData) : Action :=
  {| sync := [Download "gboard_shortcuts.json" "application/json"
                       (jsonText filteredData);
              showToast "JSON Exported Successfully" None];
     settled := None |}.

(** The clipboard writes and the notifications among some effects. *)
Definition clipboardWrites (effects : list Effect) : list string :=
  flat_map (fun x => match x with ClipboardWrite t => [t] | _ => [] end) effects.

Definition notifications (effects : list Effect) : list (string * ToastType) :=
  flat_map (fun x => match x with ShowToast m t => [(m, t)] | _ => [] end) effects.

(* ===================================================================== *)
(** ** src/App.tsx: the query state *)
(* ===================================================================== *)

(** The state of [App] that the query depends on (lines 35-37). *)
Record State : Type := mkState {
  searchTerm : string;
  activeTab : SectionFilter;
  currentPage : Z
}.

(** The initial values of [useState] (lines 35-37). *)
Definition initialState : State :=
  {| searchTerm := ""; activeTab := all; currentPage := 1 |}.

(** [itemsPerPage] (line 38): a state with no setter. *)
Definition itemsPerPage : Z := 100.

(** The user inputs whose handlers set the query state. *)
Inductive Event : Type :=
| ChangeSearch (value : string)   (* the search box, line 190 *)
| ClearSearch                     (* its clear button, line 194 *)
| SelectTab (tab : SectionFilter) (* a tab, line 215 *)
| PreviousPage                    (* line 330 *)
| NextPage.                       (* line 340 *)

Section App.

Variable toLowerCase : string -> string.

(** The catalog, [EXPANSIONS_DATA] of [./constants]. *)
Variable EXPANSIONS_DATA : list ShortcutData.

(** What a render computes from a state. *)
Definition visible (st : State) : list ShortcutData :=
  filteredData toLowerCase EXPANSIONS_DATA (activeTab st) (searchTerm st).

Definition pages (st : State) : Z := totalPages (visible st) itemsPerPage.

Definition pageItems (st : State) : list ShortcutData :=
  paginatedData (visible st) itemsPerPage (currentPage st).

(** The control that raises the event is rendered and not disabled
    (lines 192, 327, 331 and 341). *)
Definition offered (st : State) (ev : Event) : bool :=
  match ev with
  | ChangeSearch _ => true
  | SelectTab _ => true
  | ClearSearch => negb (String.eqb (searchTerm st) "")
  | PreviousPage =>
      paginationShown (visible st) itemsPerPage && negb (currentPage st =? 1)
  | NextPage =>
      paginationShown (visible st) itemsPerPage
      && negb (currentPage st =? pages st)
  end.

(** The state update of each handler. *)
Definition handle (ev : Event) (st : State) : State :=
  match ev with
  | ChangeSearch value =>
      {| searchTerm := value; activeTab := activeTab st;
         currentPage := currentPage st |}
  | ClearSearch =>
      {| searchTerm := ""; activeTab := activeTab st;
         currentPage := currentPage st |}
  | SelectTab tab =>
      {| searchTerm := searchTerm st; activeTab := tab;
         currentPage := currentPage st |}
  | PreviousPage =>
      {| searchTerm := searchTerm st; activeTab := activeTab st;
         currentPage := Z.max 1 (currentPage st - 1) |}
  | NextPage =>
      {| searchTerm := searchTerm st; activeTab := activeTab st;
         currentPage := Z.min (pages st) (currentPage st + 1) |}
  end.

(** The dependencies [activeTab, searchTerm] of the effect (line 80)
    differ between two renders. *)
Definition depsChanged (before after : State) : bool :=
  negb (SectionFilter_eqb (activeTab before) (activeTab after)
        && String.eqb (searchTerm before) (searchTerm after)).

(** The effect of lines 78-80, run once the render of [after] is done. *)
Definition resetEffect (before after : State) : State :=
  if depsChanged before after then
    {| searchTerm := searchTerm after; activeTab := activeTab after;
       currentPage := 1 |}
  else after.

(** The state after an event once the effect has run. The component
    renders [handle ev st] first, computing [visible], [pages] and
    [pageItems] from it, and the effect runs when that render is done (the
    rows of a render are drawn by [HighlightText], line 134, which fails
    on a search text that is not a regular expression; the states below
    are those the component is in when its renders succeed). *)
Definition dispatch (ev : Event) (st : State) : State :=
  resetEffect st (handle ev st).

(** The states the component can settle in. *)
Inductive reachable : State -> Prop :=
| reachable_initial : reachable initialState
| reachable_dispatch (st : State) (ev : Event) :
    reachable st -> offered st ev = true -> reachable (dispatch ev st).

(** The page number lies within [[1, totalPages]] of the current result. *)
Definition pageInRange (st : State) : Prop :=
  1 <= currentPage st <= pages st.

End App.

(** A catalog of 149 English records and a Spanish one. *)
Definition catalog150 : list ShortcutData :=
  (repeat (mkShortcut "A1" "Hello" "english") 149
     ++ [mkShortcut "H1" "Hola" "spanish"])%list.

(* ===================================================================== *)
(** ** src/App.tsx: what the page shows besides the rows *)
(* ===================================================================== *)

Module Stats.

(** The object [stats] holds (lines 44-49). *)
Record t : Type := mk {
  total : Z;
  universal : Z;
  spanish : Z;
  english : Z
}.

End Stats.

(** [stats] (lines 43-50), as a function of the catalog. *)
Definition stats (data : list ShortcutData) : Stats.t :=
  {| Stats.total := Z.of_nat (List.length data);
     Stats.universal :=
       Z.of_nat (List.length (filter (fun i => String.eqb (s i) "all") data));
     Stats.spanish :=
       Z.of_nat (List.length (filter (fun i => String.eqb (s i) "spanish") data));
     Stats.english :=
       Z.of_nat (List.length (filter (fun i => String.eqb (s i) "english") data)) |}.

(** The count each tab carries (lines 208-211). *)
Definition tabCount (st : Stats.t) (tab : SectionFilter) : Z :=
  match tab with
  | all => Stats.total st
  | universal => Stats.universal st
  | spanish => Stats.spanish st
  | english => Stats.english st
  end.

(** The label of each tab (lines 208-211). *)
Definition tabLabel (tab : SectionFilter) : string :=
  match tab with
  | all => "All"
  | universal => "Universal"
  | spanish => "Spanish"
  | english => "English"
  end.

(** The number in the line above the table (line 249). *)
Definition shownCount (filteredData : list ShortcutData) : Z :=
  Z.of_nat (List.length filteredData).

(** The language badge of a row (line 289). *)
Definition sectionLabel (item : ShortcutData) : string :=
  if String.eqb (s item) "spanish" then "Spanish"
  else if String.eqb (s item) "english" then "English"
  else "Universal".

(** [uniqueId] of a row (line 266): the keyword, a dash, and the index of
    the row within the page. *)
Definition uniqueId (item : ShortcutData) (idx : Z) : string :=
  k item ++ "-" ++ JS.numberToString idx.

(** The ids of the rows of a page, in order (lines 265-266). *)
Definition rowIds (paginatedData : list ShortcutData) : list string :=
  map (fun row => uniqueId (snd row) (Z.of_nat (fst row)))
      (combine (seq 0 (List.length paginatedData)) paginatedData).

(** A click on the row of [item] at index [idx] (lines 270 and 296). *)
Definition copyRow (item : ShortcutData) (idx : Z) : Action :=
  copyToClipboard (e item) (Some (uniqueId item idx)).

(** The ids that [setCopiedId] was called with. *)
Definition copiedIds (effects : list Effect) : list string :=
  flat_map (fun x => match x with SetCopiedId i => [i] | _ => [] end) effects.

(** The section tags the tabs select. *)
Definition knownTag (r : ShortcutData) : Prop :=
  s r = "all" \/ s r = "spanish" \/ s r = "english".

(* ===================================================================== *)
(** ** Reading delimited text back (RFC 4180) *)
(* ===================================================================== *)

(** The export has no reader in the source. To state what the exported
    text can be read back as, this is a reader of delimited text after
    RFC 4180, with the line feed as the line break, as [exportCSV] writes
    it: fields are separated by commas; a field that starts with a double
    quote runs to the next double quote that is not doubled, a doubled one
    standing for one double quote, and may hold commas and line breaks; a
    bare field holds no double quote. *)
Module Csv.

Inductive Mode : Type :=
| FieldStart   (* at the start of a field *)
| Bare         (* inside a field without quotes *)
| Quoted       (* inside a quoted field *)
| QuoteSeen.   (* after a double quote inside a quoted field *)

Definition comma : ascii := Ascii.ascii_of_nat 44.

(** [field] is the field read so far, [row] the fields of the current
    record, [rows] the records read. *)
Fixpoint read (mode : Mode) (field : string) (row : list string)
    (rows : list (list string)) (input : string)
  : option (list (list string)) :=
  match input with
  | EmptyString =>
      match mode with
      | FieldStart =>
          match row with
          | [] => Some rows
          | _ => Some (rows ++ [row ++ [""]])%list
          end
      | Bare | QuoteSeen => Some (rows ++ [row ++ [field]])%list
      | Quoted => None
      end
  | String c rest =>
      match mode with
      | FieldStart =>
          if Ascii.eqb c dquote then read Quoted "" row rows rest
          else if Ascii.eqb c comma then
            read FieldStart "" (row ++ [""])%list rows rest
          else if Ascii.eqb c lf then
            read FieldStart "" [] (rows ++ [row ++ [""]])%list rest
          else read Bare (String c "") row rows rest
      | Bare =>
          if Ascii.eqb c dquote then None
          else if Ascii.eqb c comma then
            read FieldStart "" (row ++ [field])%list rows rest
          else if Ascii.eqb c lf then
            read FieldStart "" [] (rows ++ [row ++ [field]])%list rest
          else read Bare (field ++ String c "") row rows rest
      | Quoted =>
          if Ascii.eqb c dquote then read QuoteSeen field row rows rest
          else read Quoted (field ++ String c "") row rows rest
      | QuoteSeen =>
          if Ascii.eqb c dquote then
            read Quoted (field ++ String c "") row rows rest
          else if Ascii.eqb c comma then
            read FieldStart "" (row ++ [field])%list rows rest
          else if Ascii.eqb c lf then
            read FieldStart "" [] (rows ++ [row ++ [field]])%list rest
          else None
      end
  end.

(** The records of a delimited text, each a list of fields; [None] when
    the text is not well formed. *)
Definition parse (text : string) : option (list (list string)) :=
  read FieldStart "" [] [] text.

End Csv.

(** The fields a record is exported with. *)
Definition exportedFields (r : ShortcutData) : list string :=
  [k r; newlinesToSpaces (e r); s r].

(* ===================================================================== *)
(** ** Reading the structured text back (RFC 8259) *)
(* ===================================================================== *)

(** The export has no reader in the source either. This is a reader of
    JSON texts of the shape the export has, an array of objects whose
    members are strings; it follows the JSON grammar for white space,
    strings and their escapes, and rejects every other text. A code unit
    above 255 (an escape with four hexadecimal digits beyond 00ff) is
    outside the strings of this model and is rejected. *)
Module JsonReader.

Inductive Mode : Type :=
| Start                         (* before the array *)
| ArrayOpen                     (* after the opening bracket *)
| NextObject                    (* after a comma between objects *)
| ObjectOpen                    (* after the opening brace *)
| NextMember                    (* after a comma between members *)
| InString (isKey : bool)       (* inside a string *)
| Escape (isKey : bool)         (* after a backslash *)
| Hex (isKey : bool) (due : nat) (acc : nat)   (* inside a u escape *)
| AfterKey                      (* a colon is due *)
| AfterColon                    (* a value is due *)
| AfterValue                    (* a comma or the closing brace is due *)
| AfterObject                   (* a comma or the closing bracket is due *)
| Done.                         (* after the array *)

Definition isSpace (c : ascii) : bool :=
  let n := nat_of_ascii c in
  Nat.eqb n 32 || Nat.eqb n 10 || Nat.eqb n 13 || Nat.eqb n 9.

Definition hexValue (c : ascii) : option nat :=
  let n := nat_of_ascii c in
  if Nat.leb 48 n && Nat.leb n 57 then Some (n - 48)%nat
  else if Nat.leb 97 n && Nat.leb n 102 then Some (n - 87)%nat
  else if Nat.leb 65 n && Nat.leb n 70 then Some (n - 55)%nat
  else None.

(** The character a one-letter escape stands for. *)
Definition escaped (c : ascii) : option ascii :=
  let n := nat_of_ascii c in
  if Nat.eqb n 34 then Some c               (* the double quote *)
  else if Nat.eqb n 92 then Some c          (* the backslash *)
  else if Nat.eqb n 47 then Some c          (* the slash *)
  else if Nat.eqb n 98 then Some (ascii_of_nat 8)
  else if Nat.eqb n 102 then Some (ascii_of_nat 12)
  else if Nat.eqb n 110 then Some (ascii_of_nat 10)
  else if Nat.eqb n 114 then Some (ascii_of_nat 13)
  else if Nat.eqb n 116 then Some (ascii_of_nat 9)
  else None.

Definition Members : Type := list (string * string).

(** [buf] is the string read so far, [key] the name of the member whose
    value is due, [obj] the members of the current object, [objs] the
    objects read. *)
Fixpoint read (mode : Mode) (buf key : string) (obj : Members)
    (objs : list Members) (input : string) : option (list Members) :=
  match input with
  | EmptyString =>
      match mode with
      | Done => Some objs
      | _ => None
      end
  | String c rest =>
      let n := nat_of_ascii c in
      match mode with
      | InString isKey =>
          if Nat.eqb n 34 then
            if isKey then read AfterKey "" buf obj objs rest
            else read AfterValue "" "" (obj ++ [(key, buf)])%list objs rest
          else if Nat.eqb n 92 then read (Escape isKey) buf key obj objs rest
          else if Nat.ltb n 32 then None
          else read (InString isKey) (buf ++ String c "") key obj objs rest
      | Escape isKey =>
          if Nat.eqb n 117 then read (Hex isKey 4 0) buf key obj objs rest
          else
            match escaped c with
            | Some d =>
                read (InString isKey) (buf ++ String d "") key obj objs rest
            | None => None
            end
      | Hex isKey due acc =>
          match hexValue c with
          | Some v =>
              let code := (acc * 16 + v)%nat in
              match due with
              | 1%nat =>
                  if Nat.ltb code 256 then
                    read (InString isKey) (buf ++ String (ascii_of_nat code) "")
                         key obj objs rest
                  else None
              | _ => read (Hex isKey (due - 1) code) buf key obj objs rest
              end
          | None => None
          end
      | _ =>
          if isSpace c then read mode buf key obj objs rest
          else
            match mode with
            | Start =>
                if Nat.eqb n 91 then read ArrayOpen "" "" [] objs rest
                else None
            | ArrayOpen =>
                if Nat.eqb n 123 then read ObjectOpen "" "" [] objs rest
                else if Nat.eqb n 93 then read Done "" "" [] objs rest
                else None
            | NextObject =>
                if Nat.eqb n 123 then read ObjectOpen "" "" [] objs rest
                else None
            | ObjectOpen =>
                if Nat.eqb n 34 then read (InString true) "" "" obj objs rest
                else if Nat.eqb n 125 then
                  read AfterObject "" "" [] (objs ++ [obj])%list rest
                else None
            | NextMember =>
                if Nat.eqb n 34 then read (InString true) "" "" obj objs rest
                else None
            | AfterKey =>
                if Nat.eqb n 58 then read AfterColon "" key obj objs rest
                else None
            | AfterColon =>
                if Nat.eqb n 34 then read (InString false) "" key obj objs rest
                else None
            | AfterValue =>
                if Nat.eqb n 44 then read NextMember "" "" obj objs rest
                else if Nat.eqb n 125 then
                  read AfterObject "" "" [] (objs ++ [obj])%list rest
                else None
            | AfterObject =>
                if Nat.eqb n 44 then read NextObject "" "" [] objs rest
                else if Nat.eqb n 93 then read Done "" "" [] objs rest
                else None
            | _ => None
            end
      end
  end.

(** The objects of a JSON text, each the list of its members in order;
    [None] when the text is not of the shape above. *)
Definition parse (text : string) : option (list Members) :=
  read Start "" "" [] [] text.

End JsonReader.

(** The members a record is exported with. *)
Definition exportedMembers (r : ShortcutData) : JsonReader.Members :=
  [("k", k r); ("e", e r); ("s", s r)].

(* ===================================================================== *)
(** ** src/App.tsx: the toast and the copied mark over time *)
(* ===================================================================== *)

Module Toast.

(** [interface ToastMessage] of src/types.ts. *)
Record t : Type := mk {
  id : Z;
  message : string;
  type : ToastType
}.

End Toast.

(** The callbacks [App] hands to [setTimeout] (lines 85 and 93). *)
Inductive Callback : Type :=
| ClearToast       (* () => setToast(null) *)
| ClearCopiedId.   (* () => setCopiedId(null) *)

(** The states [toast] and [copiedId] (lines 39-40), with the clock of
    the host in milliseconds and the timers that are pending, each with
    the time it is due, in the order they were set. *)
Record Screen : Type := mkScreen {
  clock : Z;
  toast : option Toast.t;
  copiedId : option string;
  timers : list (Z * Callback)
}.

Definition initialScreen (now : Z) : Screen :=
  {| clock := now; toast := None; copiedId := None; timers := [] |}.

(** [showToast] (lines 83-86) on the screen: the id is [Date.now()]. *)
Definition showToastOn (message : string) (type : ToastType) (scr : Screen) : Screen :=
  {| clock := clock scr;
     toast := Some (Toast.mk (clock scr) message type);
     copiedId := copiedId scr;
     timers := (timers scr ++ [(clock scr + 3000, ClearToast)])%list |}.

(** Lines 92-93 on the screen. *)
Definition markCopiedOn (id : string) (scr : Screen) : Screen :=
  {| clock := clock scr;
     toast := toast scr;
     copiedId := Some id;
     timers := (timers scr ++ [(clock scr + 1500, ClearCopiedId)])%list |}.

(** What an effect of an action does to the screen. *)
Definition perform (eff : Effect) (scr : Screen) : Screen :=
  match eff with
  | ShowToast message type => showToastOn message type scr
  | SetCopiedId id => markCopiedOn id scr
  | ClipboardWrite _ => scr
  | Download _ _ _ => scr
  end.

Definition performAll (effects : list Effect) (scr : Screen) : Screen :=
  fold_left (fun acc eff => perform eff acc) effects scr.

(** A timer fires. *)
Definition fire (cb : Callback) (scr : Screen) : Screen :=
  match cb with
  | ClearToast =>
      {| clock := clock scr; toast := None; copiedId := copiedId scr;
         timers := timers scr |}
  | ClearCopiedId =>
      {| clock := clock scr; toast := toast scr; copiedId := None;
         timers := timers scr |}
  end.

(** Timers fire by due time, those due together in the order they were
    set. *)
Fixpoint insertByDue (tm : Z * Callback) (sorted : list (Z * Callback))
  : list (Z * Callback) :=
  match sorted with
  | [] => [tm]
  | x :: rest =>
      if fst tm <? fst x then tm :: sorted else x :: insertByDue tm rest
  end.

Definition byDue (l : list (Z * Callback)) : list (Z * Callback) :=
  fold_left (fun sorted tm => insertByDue tm sorted) l [].

(** [dt] milliseconds pass: the timers due by then fire. *)
Definition elapse (dt : Z) (scr : Screen) : Screen :=
  let now := clock scr + dt in
  let ready := filter (fun tm => fst tm <=? now) (timers scr) in
  let waiting := filter (fun tm => negb (fst tm <=? now)) (timers scr) in
  fold_left (fun acc tm => fire (snd tm) acc) (byDue ready)
            {| clock := now; toast := toast scr; copiedId := copiedId scr;
               timers := waiting |}.

(** The screens the component can show: time passes and actions have
    their effects. *)
Inductive shows : Screen -> Prop :=
| shows_initial (now : Z) : shows (initialScreen now)
| shows_elapse (dt : Z) (scr : Screen) :
    0 <= dt -> shows scr -> shows (elapse dt scr)
| shows_perform (eff : Effect) (scr : Screen) :
    shows scr -> shows (perform eff scr).

Definition isClearToast (tm : Z * Callback) : bool :=
  match snd tm with ClearToast => true | ClearCopiedId => false end.

Definition isClearCopiedId (tm : Z * Callback) : bool :=
  match snd tm with ClearCopiedId => true | ClearToast => false end.

(** What every screen keeps: the pending timers are due within 3000 ms;
    a toast that shows has a timer pending that clears it; a row marked
    as copied has a timer pending, due within 1500 ms, that unmarks it. *)
Definition screenInvariant (scr : Screen) : Prop :=
  (forall tm, In tm (timers scr) -> clock scr < fst tm <= clock scr + 3000)
  /\ (toast scr <> None -> exists d, In (d, ClearToast) (timers scr))
  /\ (copiedId scr <> None ->
      exists d, In (d, ClearCopiedId) (timers scr) /\ d <= clock scr + 1500).

(** An action played on the screen: its synchronous effects, then, [delay]
    ms later, those of the callbacks on the clipboard promise. *)
Definition play (a : Action) (outcome : ClipboardOutcome) (delay : Z)
    (scr : Screen) : Screen :=
  match settled a with
  | Some callbacks =>
      performAll (callbacks outcome) (elapse delay (performAll (sync a) scr))
  | None => performAll (sync a) scr
  end.

(* ===================================================================== *)
(** * Properties *)
(* ===================================================================== *)

(** ** Lists and strings *)

Lemma filter_filter_andb {A : Type} (p q : A -> bool) (l : list A) :
  filter q (filter p l) = filter (fun x => p x && q x) l.
Proof.
  induction l as [|x l IH]; simpl; [reflexivity|].
  destruct (p x); simpl; [destruct (q x)|]; now rewrite IH.
Qed.

Lemma filter_true {A : Type} (l : list A) : filter (fun _ => true) l = l.
Proof. induction l; simpl; congruence. Qed.

Lemma string_app_assoc (a b c : string) : (a ++ b) ++ c = a ++ (b ++ c).
Proof. induction a as [|x a IH]; simpl; [reflexivity | now rewrite IH]. Qed.

Lemma string_app_nil_r (a : string) : a ++ "" = a.
Proof. induction a as [|x a IH]; simpl; [reflexivity | now rewrite IH]. Qed.

Lemma firstn_plus {A : Type} (a b : nat) (l : list A) :
  firstn (a + b) l = (firstn a l ++ firstn b (skipn a l))%list.
Proof.
  revert l; induction a as [|a IH]; intros l; simpl; [reflexivity|].
  destruct l as [|x l]; simpl.
  - now rewrite firstn_nil.
  - now rewrite IH.
Qed.

(** ** The filter *)

Section FilterProperties.

Variable toLowerCase : string -> string.

Lemma categoryStep_filter (c : SectionFilter) (data : list ShortcutData) :
  categoryStep c data = filter (passesCategory c) data.
Proof.
  destruct c; simpl; try reflexivity.
  symmetry; apply filter_true.
Qed.

Lemma textStep_filter (txt : string) (data : list ShortcutData) :
  textStep toLowerCase txt data = filter (passesText toLowerCase txt) data.
Proof.
  unfold textStep, passesText, matchesText.
  destruct (String.eqb txt ""); simpl.
  - symmetry; apply filter_true.
  - reflexivity.
Qed.

Lemma filteredData_filter
    (R : list ShortcutData) (c : SectionFilter) (txt : string) :
  filteredData toLowerCase R c txt
  = filter (fun r => passesCategory c r && passesText toLowerCase txt r) R.
Proof.
  unfold filteredData.
  now rewrite categoryStep_filter, textStep_filter, filter_filter_andb.
Qed.

(** C1 (as amended). For every catalog [R], category filter [c] and search
    text [txt], [filteredData] retains exactly the records of [R] that pass
    both steps, in their order: the category step passes every record when
    [c] is [all], and otherwise the records whose [s] field is the tag of
    the section [c] (the tag of the universal section being the string
    all); the text step passes every record when [txt] is empty (a raw
    test, nothing trimmed), and otherwise the records where the lower-cased
    [txt] occurs in the lower-cased keyword or in the lower-cased
    expansion. *)
Theorem filteredData_retains_exactly
    (R : list ShortcutData) (c : SectionFilter) (txt : string) :
  filteredData toLowerCase R c txt
  = filter (fun r => passesCategory c r && passesText toLowerCase txt r) R
  /\ (forall r, In r (filteredData toLowerCase R c txt)
                <-> In r R /\ passesCategory c r = true
                    /\ passesText toLowerCase txt r = true).
Proof.
  split; [apply filteredData_filter|].
  intros r. rewrite filteredData_filter, filter_In, andb_true_iff. tauto.
Qed.

(** C8. The filter is idempotent: filtering a filtered catalog again with
    the same category filter and the same search text changes nothing. *)
Theorem filteredData_idempotent
    (R : list ShortcutData) (c : SectionFilter) (txt : string) :
  filteredData toLowerCase (filteredData toLowerCase R c txt) c txt
  = filteredData toLowerCase R c txt.
Proof.
  rewrite !filteredData_filter, filter_filter_andb.
  apply filter_ext; intros r.
  now destruct (passesCategory c r && passesText toLowerCase txt r).
Qed.

End FilterProperties.

(** C1, the claim as stated fails. With the tab [universal] selected and no
    search text, a record whose category is the string universal is
    dropped and a record whose category is the string all is kept, so the
    result is not the records whose category equals the filter. *)
Lemma filteredData_universal_tag_counterexample :
  filteredData ascii_toLowerCase
    [mkShortcut "u1" "one" "universal"; mkShortcut "u2" "two" "all"]
    universal ""
  <> filter (fun r => passesCategory_spec universal r
                      && passesText ascii_toLowerCase "" r)
       [mkShortcut "u1" "one" "universal"; mkShortcut "u2" "two" "all"].
Proof. vm_compute. discriminate. Qed.

(** The scenario of the specification: the search text HOLA matches a record
    whose expansion is hola amigo. *)
Example search_is_case_insensitive :
  filteredData ascii_toLowerCase
    [mkShortcut "h1" "hola amigo" "spanish"; mkShortcut "g1" "good morning" "english"]
    all "HOLA"
  = [mkShortcut "h1" "hola amigo" "spanish"].
Proof. reflexivity. Qed.

(** ** Pagination *)

Lemma ceil_div_opp (a b : Z) : JS.ceil_div a b = - ((- a) / b).
Proof.
  unfold JS.ceil_div, Qceiling. f_equal.
  rewrite Zdiv_Qdiv. apply Qfloor_comp.
  rewrite inject_Z_opp. unfold Qdiv. ring.
Qed.

(** [Math.ceil(a / b)] is the least integer [t] with [a <= t * b]. *)
Lemma ceil_div_bounds (a b : Z) :
  0 < b -> (JS.ceil_div a b - 1) * b < a <= JS.ceil_div a b * b.
Proof.
  intros Hb. rewrite ceil_div_opp.
  pose proof (Z.div_mod (- a) b ltac:(lia)) as E.
  pose proof (Z.mod_pos_bound (- a) b Hb) as M.
  nia.
Qed.

Lemma ceil_div_unique (a b t : Z) :
  0 < b -> (t - 1) * b < a <= t * b -> JS.ceil_div a b = t.
Proof.
  intros Hb Ht. pose proof (ceil_div_bounds a b Hb). nia.
Qed.

(** [slice] between two non-negative bounds is the half-open slice. *)
Lemma slice_halfOpen {A : Type} (l : list A) (a b : Z) :
  0 <= a <= b ->
  JS.slice l a b = halfOpen l (Z.to_nat a) (Z.to_nat b).
Proof.
  intros Hab. unfold JS.slice, JS.relativeIndex, halfOpen.
  destruct (Z.ltb_spec a 0) as [?|_]; [lia|].
  destruct (Z.ltb_spec b 0) as [?|_]; [lia|].
  rewrite skipn_firstn_comm.
  set (len := List.length l).
  destruct (Z.le_gt_cases (Z.of_nat len) a) as [Hlen|Hlen].
  - rewrite !(skipn_all2 l) by (unfold len in *; lia).
    now rewrite !firstn_nil.
  - replace (Z.to_nat (Z.min a (Z.of_nat len))) with (Z.to_nat a) by lia.
    destruct (Z.le_gt_cases b (Z.of_nat len)) as [Hb|Hb].
    + f_equal. lia.
    + rewrite !firstn_all2; [reflexivity| |];
        rewrite length_skipn; unfold len in *; lia.
Qed.

Lemma halfOpen_length {A : Type} (l : list A) (a b : nat) :
  List.length (halfOpen l a b) = (Nat.min b (List.length l) - a)%nat.
Proof. unfold halfOpen. now rewrite length_skipn, length_firstn. Qed.

Lemma paginatedData_halfOpen (l : list ShortcutData) (pageSize currentPage : Z) :
  0 < pageSize -> 1 <= currentPage ->
  paginatedData l pageSize currentPage
  = halfOpen l (Z.to_nat ((currentPage - 1) * pageSize))
               (Z.to_nat (currentPage * pageSize)).
Proof.
  intros Hs Hp. unfold paginatedData.
  rewrite slice_halfOpen by nia.
  do 2 f_equal. lia.
Qed.

(** C6. For every filtered sequence [l], page size and page number (a
    positive size, a page number from 1 on), [totalPages] is the ceiling of
    [length / pageSize] (the least [t] with [length <= t * pageSize]) and
    the page is the half-open slice from [(currentPage - 1) * pageSize] to
    [currentPage * pageSize], an end past the length clipping; with 150
    records and a page size of 100, page 1 has 100 items, page 2 has 50 and
    there are 2 pages. *)
Theorem paginate_slice_and_total
    (l : list ShortcutData) (pageSize currentPage : Z) :
  0 < pageSize -> 1 <= currentPage ->
  ((totalPages l pageSize - 1) * pageSize < Z.of_nat (List.length l)
     <= totalPages l pageSize * pageSize)
  /\ paginatedData l pageSize currentPage
     = halfOpen l (Z.to_nat ((currentPage - 1) * pageSize))
                  (Z.to_nat (currentPage * pageSize))
  /\ (List.length l = 150%nat -> pageSize = 100 ->
      List.length (paginatedData l pageSize 1) = 100%nat
      /\ List.length (paginatedData l pageSize 2) = 50%nat
      /\ totalPages l pageSize = 2).
Proof.
  intros Hs Hp. split; [|split].
  - apply ceil_div_bounds, Hs.
  - apply paginatedData_halfOpen; assumption.
  - intros Hl ->. repeat split.
    + rewrite paginatedData_halfOpen, halfOpen_length, Hl by lia. reflexivity.
    + rewrite paginatedData_halfOpen, halfOpen_length, Hl by lia. reflexivity.
    + unfold totalPages. apply ceil_div_unique; lia.
Qed.

Lemma paginate_slice_and_total_witness :
  (0 < 100 /\ 1 <= 2)
  /\ paginatedData (repeat (mkShortcut "A1" "Hello" "english") 150) 100 2
     = halfOpen (repeat (mkShortcut "A1" "Hello" "english") 150) 100 200
  /\ totalPages (repeat (mkShortcut "A1" "Hello" "english") 150) 100 = 2.
Proof.
  split; [lia|].
  destruct (paginate_slice_and_total
              (repeat (mkShortcut "A1" "Hello" "english") 150) 100 2
              ltac:(lia) ltac:(lia)) as (_ & Hpage & Hscenario).
  split.
  - exact Hpage.
  - apply Hscenario; [apply repeat_length | reflexivity].
Defined.

(** Consecutive chunks of [n] elements add up to a prefix. *)
Lemma concat_chunks {A : Type} (n : nat) (l : list A) (t : nat) :
  List.concat (map (fun i => firstn n (skipn (i * n) l)) (seq 0 t))
  = firstn (t * n) l.
Proof.
  induction t as [|t IH].
  - reflexivity.
  - rewrite seq_S, map_app, List.concat_app, IH. simpl.
    rewrite app_nil_r, (Nat.add_comm n (t * n)).
    symmetry; apply firstn_plus.
Qed.

Lemma totalPages_nonneg (l : list ShortcutData) (pageSize : Z) :
  0 < pageSize -> 0 <= totalPages l pageSize.
Proof.
  intros Hs. unfold totalPages.
  pose proof (ceil_div_bounds (Z.of_nat (List.length l)) pageSize Hs). nia.
Qed.

(** C7. For every filtered sequence and (positive) page size, the pages
    1 to [totalPages], concatenated in order, are exactly the filtered
    sequence: no record is left out and none appears twice. *)
Theorem pages_cover_filtered (l : list ShortcutData) (pageSize : Z) :
  0 < pageSize -> List.concat (allPages l pageSize) = l.
Proof.
  intros Hs. unfold allPages, pageNumbers. rewrite map_map.
  rewrite (map_ext _ (fun i => firstn (Z.to_nat pageSize)
                                 (skipn (i * Z.to_nat pageSize) l))).
  - rewrite concat_chunks. apply firstn_all2.
    pose proof (ceil_div_bounds (Z.of_nat (List.length l)) pageSize Hs) as B.
    pose proof (totalPages_nonneg l pageSize Hs) as N.
    unfold totalPages in *. nia.
  - intros i. rewrite paginatedData_halfOpen by lia.
    unfold halfOpen. rewrite firstn_skipn_comm.
    f_equal; [|f_equal]; nia.
Qed.

Lemma pages_cover_filtered_witness :
  0 < 2
  /\ List.concat (allPages [mkShortcut "a" "1" "all"; mkShortcut "b" "2" "spanish";
                       mkShortcut "c" "3" "english"] 2)
     = [mkShortcut "a" "1" "all"; mkShortcut "b" "2" "spanish";
        mkShortcut "c" "3" "english"].
Proof.
  split; [lia|].
  apply (pages_cover_filtered
           [mkShortcut "a" "1" "all"; mkShortcut "b" "2" "spanish";
            mkShortcut "c" "3" "english"] 2).
  lia.
Defined.

(** Three records in pages of two: a full page, then the rest. *)
Example allPages_three_by_two :
  allPages [mkShortcut "a" "1" "all"; mkShortcut "b" "2" "spanish";
            mkShortcut "c" "3" "english"] 2
  = [[mkShortcut "a" "1" "all"; mkShortcut "b" "2" "spanish"];
     [mkShortcut "c" "3" "english"]].
Proof. reflexivity. Qed.

Lemma paginationShown_iff (l : list ShortcutData) (pageSize : Z) :
  paginationShown l pageSize = true <-> pageSize < Z.of_nat (List.length l).
Proof. unfold paginationShown. rewrite Z.gtb_ltb. apply Z.ltb_lt. Qed.

(** C10. When the filtered result is empty, [totalPages] is 0 and the page
    is empty, whatever the page number; the pagination controls are
    rendered exactly when the length of the filtered result exceeds the
    page size, so not for an empty result. *)
Theorem empty_result_has_no_pages (pageSize currentPage : Z) :
  0 < pageSize ->
  totalPages [] pageSize = 0
  /\ paginatedData [] pageSize currentPage = []
  /\ paginationShown [] pageSize = false
  /\ (forall l, paginationShown l pageSize = true
                <-> pageSize < Z.of_nat (List.length l)).
Proof.
  intros Hs. split; [|split; [|split]].
  - unfold totalPages. change (Z.of_nat (@List.length ShortcutData [])) with 0.
    apply ceil_div_unique; lia.
  - unfold paginatedData, JS.slice. now rewrite skipn_nil, firstn_nil.
  - unfold paginationShown. simpl. rewrite Z.gtb_ltb. apply Z.ltb_ge. lia.
  - intros l. apply paginationShown_iff.
Qed.

Lemma empty_result_has_no_pages_witness :
  0 < itemsPerPage
  /\ totalPages [] itemsPerPage = 0
  /\ paginatedData [] itemsPerPage 1 = []
  /\ paginationShown [] itemsPerPage = false.
Proof.
  split; [reflexivity|].
  destruct (empty_result_has_no_pages itemsPerPage 1 eq_refl) as (H1 & H2 & H3 & _).
  auto.
Defined.

(** ** The delimited-text export *)

Lemma replaceAll_app (c : ascii) (by_ a b : string) :
  JS.replaceAll c by_ (a ++ b) = JS.replaceAll c by_ a ++ JS.replaceAll c by_ b.
Proof.
  induction a as [|x a IH]; simpl; [reflexivity|].
  now rewrite IH, string_app_assoc.
Qed.

Lemma replaceAll_absent (c : ascii) (by_ str : string) :
  hasChar c str = false -> JS.replaceAll c by_ str = str.
Proof.
  induction str as [|x str IH]; simpl; [reflexivity|].
  intros H. apply orb_false_iff in H as [Hx Hs].
  now rewrite Hx, IH.
Qed.

(** Doubling the quotes and turning line feeds into spaces commute. *)
Lemma newlines_quotes_commute (str : string) :
  newlinesToSpaces (doubleQuotes str) = doubleQuotes (newlinesToSpaces str).
Proof.
  unfold newlinesToSpaces, doubleQuotes.
  induction str as [|x str IH]; [reflexivity|].
  cbn [JS.replaceAll].
  rewrite !replaceAll_app, IH.
  destruct (Ascii.eqb_spec x dquote) as [Hq|Hq].
  - subst x. reflexivity.
  - destruct (Ascii.eqb_spec x lf) as [Hl|Hl].
    + subst x. reflexivity.
    + cbn [JS.replaceAll append].
      destruct (Ascii.eqb_spec x lf); [contradiction|].
      destruct (Ascii.eqb_spec x dquote); [contradiction|].
      reflexivity.
Qed.

Lemma string_concat_cons (x : string) (xs : list string) :
  String.concat "" (x :: xs) = x ++ String.concat "" xs.
Proof. destruct xs; simpl; [now rewrite string_app_nil_r | reflexivity]. Qed.

(** The [forEach] that appends to [csv] builds the lines in order. *)
Lemma fold_append (f : ShortcutData -> string) (l : list ShortcutData) (acc : string) :
  fold_left (fun csv r => csv ++ f r) l acc = acc ++ String.concat "" (map f l).
Proof.
  revert acc; induction l as [|r l IH]; intros acc.
  - simpl. now rewrite string_app_nil_r.
  - cbn [fold_left map]. now rewrite IH, string_concat_cons, string_app_assoc.
Qed.

Lemma csvLine_recordLine (r : ShortcutData) : csvLine r = recordLine r.
Proof.
  unfold csvLine, recordLine, quotedField.
  rewrite newlines_quotes_commute, !string_app_assoc. reflexivity.
Qed.

(** The text of [exportCSV] is the header line followed by the lines the
    loop appended, in order. *)
Lemma csvText_lines (records : list ShortcutData) :
  csvText records = csvHeader ++ LF ++ String.concat "" (map csvLine records).
Proof.
  unfold csvText, csvHeader. now rewrite fold_append, string_app_assoc.
Qed.

(** What [exportCSV] writes for every record sequence: the header, then
    per record the keyword and the expansion enclosed in double quotes
    with each of their double quotes doubled, the expansion having each of
    its line feeds turned into one space, and the category enclosed in
    double quotes as it is; a line feed ends the header and each record. *)
Theorem csvText_format (records : list ShortcutData) :
  csvText records = toDelimitedText records.
Proof.
  rewrite csvText_lines. unfold toDelimitedText.
  do 3 f_equal. apply map_ext. intros r.
  unfold csvLine, recordLine, quotedField.
  rewrite newlines_quotes_commute, !string_app_assoc. reflexivity.
Qed.

(** X3. On records whose category holds no double quote (the tags of the
    catalog hold none) this is the format the specification states. *)
Lemma csvText_format_plain_categories (records : list ShortcutData) :
  Forall (fun r => hasChar dquote (s r) = false) records ->
  csvText records = toDelimitedText_spec records.
Proof.
  intros H. rewrite csvText_lines.
  unfold toDelimitedText_spec. do 3 f_equal.
  apply map_ext_in. intros r Hr.
  rewrite Forall_forall in H. specialize (H r Hr).
  rewrite csvLine_recordLine.
  unfold recordLine, recordLine_spec. do 4 f_equal.
  unfold quotedField, doubleQuotes.
  now rewrite (replaceAll_absent _ _ _ H), !string_app_assoc.
Qed.

Lemma csvText_format_plain_categories_witness :
  Forall (fun r => hasChar dquote (s r) = false)
         [mkShortcut "A1" ("Hello, " ++ DQ ++ "World" ++ DQ) "english"]
  /\ csvText [mkShortcut "A1" ("Hello, " ++ DQ ++ "World" ++ DQ) "english"]
     = toDelimitedText_spec
         [mkShortcut "A1" ("Hello, " ++ DQ ++ "World" ++ DQ) "english"].
Proof.
  assert (H : Forall (fun r => hasChar dquote (s r) = false)
                [mkShortcut "A1" ("Hello, " ++ DQ ++ "World" ++ DQ) "english"])
    by (repeat constructor).
  split; [exact H|].
  exact (csvText_format_plain_categories _ H).
Defined.

(** A double quote in the category is written once, not doubled. *)
Lemma csvText_category_quote_counterexample :
  csvText [mkShortcut "A1" "Hello" ("en" ++ DQ ++ "US")]
  <> toDelimitedText_spec [mkShortcut "A1" "Hello" ("en" ++ DQ ++ "US")].
Proof. vm_compute. discriminate. Qed.

(** C4, the code at the failing inputs. A keyword with a line feed is
    written with the line feed in it (only the expansion has its line
    feeds turned into spaces), so one record takes two lines: the text of
    one record has three line feeds, the header's and two more. And a
    category with a double quote is written with that quote single,
    beside a keyword and an expansion whose quotes are doubled. *)
Theorem csvText_keyword_newline_category_quote :
  csvText [mkShortcut ("A" ++ LF ++ "1") "Hello" "english"]
  = "Shortcut,Expansion,Language" ++ LF
    ++ DQ ++ "A" ++ LF
    ++ "1" ++ DQ ++ "," ++ DQ ++ "Hello" ++ DQ ++ ","
    ++ DQ ++ "english" ++ DQ ++ LF
  /\ countChar lf (csvText [mkShortcut ("A" ++ LF ++ "1") "Hello" "english"])
     = 3%nat
  /\ csvText [mkShortcut ("A" ++ DQ ++ "1") ("Hel" ++ DQ ++ "lo") ("en" ++ DQ ++ "US")]
     = "Shortcut,Expansion,Language" ++ LF
       ++ DQ ++ "A" ++ DQ ++ DQ ++ "1" ++ DQ ++ ","
       ++ DQ ++ "Hel" ++ DQ ++ DQ ++ "lo" ++ DQ ++ ","
       ++ DQ ++ "en" ++ DQ ++ "US" ++ DQ ++ LF.
Proof. split; [|split]; reflexivity. Qed.

(** The record of the round-trip scenario of the specification. *)
Example csvText_hello_world :
  csvText [mkShortcut "A1" ("Hello, " ++ DQ ++ "World" ++ DQ) "english"]
  = "Shortcut,Expansion,Language" ++ LF
    ++ DQ ++ "A1" ++ DQ ++ ","
    ++ DQ ++ "Hello, " ++ DQ ++ DQ ++ "World" ++ DQ ++ DQ ++ DQ ++ ","
    ++ DQ ++ "english" ++ DQ ++ LF.
Proof. reflexivity. Qed.

(** ** The structured-text export *)

Lemma serialize_recordValue (r : ShortcutData) :
  JSON.serialize "  " "  " (recordValue r) = recordText r.
Proof.
  unfold recordValue, recordText, memberText.
  cbn [JSON.serialize map fst snd JSON.wrap String.eqb Ascii.eqb Bool.eqb JS.join].
  rewrite !string_app_assoc.
  change (JSON.quote "k") with (DQ ++ "k" ++ DQ).
  change (JSON.quote "e") with (DQ ++ "e" ++ DQ).
  change (JSON.quote "s") with (DQ ++ "s" ++ DQ).
  rewrite !string_app_assoc. reflexivity.
Qed.

Lemma jsonText_wrap (records : list ShortcutData) :
  jsonText records = JSON.wrap "[" "]" "  " "" "  " (map recordText records).
Proof.
  unfold jsonText, JSON.stringify2, arrayValue.
  cbn [JSON.serialize]. rewrite map_map. f_equal.
  apply map_ext, serialize_recordValue.
Qed.

(** C2 (as amended). For every record sequence, the structured-text export
    serializes an array with one object per record, in order, and the field
    names of each object are exactly k, e and s, the attribute names of
    [ShortcutData]; the text of each object shows them. *)
Theorem jsonText_field_names (records : list ShortcutData) :
  arrayItems (arrayValue records) = Some (map recordValue records)
  /\ Forall (fun v => fieldNames v = ["k"; "e"; "s"]
                      /\ namedExactly ["k"; "e"; "s"] v)
            (map recordValue records)
  /\ jsonText records
     = JSON.wrap "[" "]" "  " "" "  " (map recordText records).
Proof.
  split; [reflexivity|split].
  - apply Forall_forall. intros v Hv.
    apply in_map_iff in Hv as (r & <- & _).
    split; [reflexivity|]. intros n. reflexivity.
  - apply jsonText_wrap.
Qed.

(** C2, the claim as stated fails: the object of a record has no field
    named keyword (nor expansion, nor category). *)
Lemma jsonText_field_names_counterexample :
  ~ Forall (namedExactly ["keyword"; "expansion"; "category"])
      (map recordValue [mkShortcut "A1" "Hello" "english"]).
Proof.
  intros H. inversion H as [|v vs Hv _]; subst.
  destruct (Hv "keyword") as [_ Hin].
  destruct (Hin (or_introl eq_refl)) as [E|[E|[E|[]]]]; discriminate E.
Qed.

Example jsonText_one_record :
  jsonText [mkShortcut "A1" "Hello" "english"]
  = "[" ++ LF
    ++ "  {" ++ LF
    ++ "    " ++ DQ ++ "k" ++ DQ ++ ": " ++ DQ ++ "A1" ++ DQ ++ "," ++ LF
    ++ "    " ++ DQ ++ "e" ++ DQ ++ ": " ++ DQ ++ "Hello" ++ DQ ++ "," ++ LF
    ++ "    " ++ DQ ++ "s" ++ DQ ++ ": " ++ DQ ++ "english" ++ DQ ++ LF
    ++ "  }" ++ LF
    ++ "]".
Proof. reflexivity. Qed.

(** C5. On an empty record sequence the delimited-text export is exactly
    the header line and the structured-text export is the empty array;
    both actions run to their end: each hands its text to a download and
    raises its notification. *)
Theorem exports_of_empty :
  csvText [] = "Shortcut,Expansion,Language" ++ LF
  /\ arrayValue [] = JArray []
  /\ jsonText [] = "[]"
  /\ sync (exportCSV [])
     = [Download "gboard_shortcuts.csv" "text/csv;charset=utf-8;"
                 ("Shortcut,Expansion,Language" ++ LF);
        ShowToast "CSV Exported Successfully" success]
  /\ sync (exportJSON [])
     = [Download "gboard_shortcuts.json" "application/json" "[]";
        ShowToast "JSON Exported Successfully" success].
Proof. repeat split. Qed.

(** ** Bulk copy *)

(** X1. An empty filtered sequence: one informational notification, nothing
    written to the clipboard, no callback left behind. *)
Lemma copyVisible_empty (outcome : ClipboardOutcome) :
  trace (copyVisible []) outcome = [ShowToast "Nothing to copy" info]
  /\ clipboardWrites (trace (copyVisible []) outcome) = []
  /\ notifications (trace (copyVisible []) outcome) = [("Nothing to copy", info)].
Proof. repeat split. Qed.

Lemma length_eqb_0 {A : Type} (l : list A) :
  l <> [] -> (Z.of_nat (List.length l) =? 0) = false.
Proof.
  intros H. destruct l as [|x l]; [contradiction|].
  apply Z.eqb_neq. simpl List.length. lia.
Qed.

(** X2. A non-empty filtered sequence: the joined expansions are written to the
    clipboard and the count is announced at once, before the outcome of
    the write is known; the outcome then adds a notification of its own. *)
Lemma copyVisible_nonempty (filtered : list ShortcutData) (outcome : ClipboardOutcome) :
  filtered <> [] ->
  trace (copyVisible filtered) outcome
  = [ClipboardWrite (JS.join LF (map e filtered));
     ShowToast ("Copied " ++ JS.numberToString (Z.of_nat (List.length filtered))
                          ++ " items!") success;
     match outcome with
     | Resolved => ShowToast "Copied to clipboard!" success
     | Rejected => ShowToast "Failed to copy" error
     end].
Proof.
  intros H. unfold copyVisible. rewrite (length_eqb_0 _ H).
  destruct outcome; reflexivity.
Qed.

Lemma copyVisible_nonempty_witness :
  trace (copyVisible [mkShortcut "A1" "Hello" "english";
                      mkShortcut "H1" "Hola" "spanish"]) Resolved
  = [ClipboardWrite ("Hello" ++ LF ++ "Hola");
     ShowToast "Copied 2 items!" success;
     ShowToast "Copied to clipboard!" success].
Proof.
  apply (copyVisible_nonempty [mkShortcut "A1" "Hello" "english";
                               mkShortcut "H1" "Hola" "spanish"] Resolved).
  discriminate.
Defined.

(** The block that bulk copy writes: the expansions separated by one line
    feed, none after the last. *)
Example copyVisible_block :
  clipboardWrites (trace (copyVisible [mkShortcut "A1" "Hello" "english";
                                       mkShortcut "H1" "Hola" "spanish"]) Resolved)
  = ["Hello" ++ LF ++ "Hola"].
Proof. reflexivity. Qed.

(** C3, the code at the failing input: one record, and a clipboard write
    that is rejected. The count is announced as a success although nothing
    was copied; the error notification follows it. *)
Theorem copyVisible_announces_count_on_failure :
  trace (copyVisible [mkShortcut "A1" "Hello" "english"]) Rejected
  = [ClipboardWrite "Hello";
     ShowToast "Copied 1 items!" success;
     ShowToast "Failed to copy" error].
Proof. reflexivity. Qed.

(** ** The query state *)

Lemma SectionFilter_eqb_eq (a b : SectionFilter) :
  SectionFilter_eqb a b = true <-> a = b.
Proof. destruct a, b; simpl; split; intros H; congruence. Qed.

Lemma totalPages_shown (l : list ShortcutData) :
  paginationShown l itemsPerPage = true -> 2 <= totalPages l itemsPerPage.
Proof.
  intros H. apply paginationShown_iff in H.
  pose proof (ceil_div_bounds (Z.of_nat (List.length l)) itemsPerPage eq_refl) as B.
  unfold totalPages, itemsPerPage in *. lia.
Qed.

Lemma totalPages_nonempty (l : list ShortcutData) :
  l <> [] -> 1 <= totalPages l itemsPerPage.
Proof.
  intros H.
  pose proof (ceil_div_bounds (Z.of_nat (List.length l)) itemsPerPage eq_refl) as B.
  destruct l as [|x l]; [contradiction|].
  unfold totalPages, itemsPerPage in *. simpl List.length in *. lia.
Qed.

Section AppProperties.

Variable toLowerCase : string -> string.
Variable EXPANSIONS_DATA : list ShortcutData.

Local Abbreviation visible' := (visible toLowerCase EXPANSIONS_DATA).
Local Abbreviation pages' := (pages toLowerCase EXPANSIONS_DATA).
Local Abbreviation offered' := (offered toLowerCase EXPANSIONS_DATA).
Local Abbreviation handle' := (handle toLowerCase EXPANSIONS_DATA).
Local Abbreviation dispatch' := (dispatch toLowerCase EXPANSIONS_DATA).
Local Abbreviation reachable' := (reachable toLowerCase EXPANSIONS_DATA).
Local Abbreviation pageInRange' := (pageInRange toLowerCase EXPANSIONS_DATA).

Lemma depsChanged_false (before after : State) :
  depsChanged before after = false
  <-> activeTab after = activeTab before /\ searchTerm after = searchTerm before.
Proof.
  unfold depsChanged.
  rewrite negb_false_iff, andb_true_iff, SectionFilter_eqb_eq, String.eqb_eq.
  intuition congruence.
Qed.

Lemma pages_same_query (a b : State) :
  activeTab a = activeTab b -> searchTerm a = searchTerm b -> pages' a = pages' b.
Proof.
  intros Ht Hs.
  unfold pages, visible. now rewrite Ht, Hs.
Qed.

Lemma resetEffect_query (before after : State) :
  activeTab (resetEffect before after) = activeTab after
  /\ searchTerm (resetEffect before after) = searchTerm after.
Proof. unfold resetEffect. now destruct (depsChanged before after). Qed.

(** A change of the category filter or of the search text leaves the page
    number at 1 once the effect has run. *)
Lemma dispatch_resets_page (ev : Event) (st : State) :
  activeTab (dispatch' ev st) <> activeTab st
  \/ searchTerm (dispatch' ev st) <> searchTerm st ->
  currentPage (dispatch' ev st) = 1.
Proof.
  unfold dispatch.
  destruct (resetEffect_query st (handle' ev st)) as [-> ->].
  unfold resetEffect.
  destruct (depsChanged st (handle' ev st)) eqn:D; [reflexivity|].
  apply depsChanged_false in D. tauto.
Qed.

(** In every state the component settles in, the page number is at least 1
    and at most the number of pages, or 1 when there is no page. *)
Lemma reachable_page_bounds (st : State) :
  reachable' st -> 1 <= currentPage st <= Z.max 1 (pages' st).
Proof.
  induction 1 as [|st ev _ IH Hoff].
  - simpl. lia.
  - unfold dispatch, resetEffect.
    destruct (depsChanged st (handle' ev st)) eqn:D.
    + simpl. lia.
    + apply depsChanged_false in D as [Ht Hs].
      rewrite (pages_same_query _ _ Ht Hs).
      destruct ev; simpl in *; try exact IH.
      * lia.
      * apply andb_true_iff in Hoff as [Hshown _].
        apply totalPages_shown in Hshown.
        fold (pages' st) in Hshown. lia.
Qed.

(** X23. Once the effect has run: after an input that changed the
    category filter or the search text the page number is 1; the page
    number is at least 1 and at most the larger of 1 and [totalPages] of
    the current filtered result, so it lies within [[1, totalPages]]
    whenever that result is not empty. *)
Theorem page_reset_and_bounds (st : State) (ev : Event) :
  reachable' st -> offered' st ev = true ->
  (activeTab (dispatch' ev st) <> activeTab st
   \/ searchTerm (dispatch' ev st) <> searchTerm st ->
   currentPage (dispatch' ev st) = 1)
  /\ 1 <= currentPage (dispatch' ev st) <= Z.max 1 (pages' (dispatch' ev st))
  /\ (visible' (dispatch' ev st) <> [] -> pageInRange' (dispatch' ev st)).
Proof.
  intros Hreach Hoff.
  assert (Hb : 1 <= currentPage (dispatch' ev st)
               <= Z.max 1 (pages' (dispatch' ev st))).
  { apply reachable_page_bounds. now constructor. }
  split; [apply dispatch_resets_page | split; [exact Hb|]].
  intros Hne. apply totalPages_nonempty in Hne.
  unfold pageInRange. fold (pages' (dispatch' ev st)) in Hne. lia.
Qed.

End AppProperties.

(** On page 2 of [catalog150] the Spanish tab is selected: once the
    effect has run the page number is 1 again. *)
Lemma page_reset_and_bounds_witness :
  currentPage (dispatch ascii_toLowerCase catalog150 NextPage initialState) = 2
  /\ currentPage
       (dispatch ascii_toLowerCase catalog150 (SelectTab spanish)
          (dispatch ascii_toLowerCase catalog150 NextPage initialState)) = 1.
Proof.
  split; [reflexivity|].
  refine (proj1 (page_reset_and_bounds ascii_toLowerCase catalog150
                   (dispatch ascii_toLowerCase catalog150 NextPage initialState)
                   (SelectTab spanish) _ _) _).
  - apply reachable_dispatch; [constructor | reflexivity].
  - reflexivity.
  - left. discriminate.
Defined.

(** In a catalog of one English record the Spanish tab is selected: the
    filter has changed, the page number is 1, the filtered result is empty
    and [totalPages] is 0, so the page number is not within
    [[1, totalPages]]. *)
Lemma page_range_empty_result_counterexample :
  activeTab (dispatch ascii_toLowerCase [mkShortcut "A1" "Hello" "english"]
               (SelectTab spanish) initialState)
    <> activeTab initialState
  /\ pages ascii_toLowerCase [mkShortcut "A1" "Hello" "english"]
       (dispatch ascii_toLowerCase [mkShortcut "A1" "Hello" "english"]
          (SelectTab spanish) initialState) = 0
  /\ ~ pageInRange ascii_toLowerCase [mkShortcut "A1" "Hello" "english"]
         (dispatch ascii_toLowerCase [mkShortcut "A1" "Hello" "english"]
            (SelectTab spanish) initialState).
Proof.
  split; [discriminate | split; [reflexivity|]].
  unfold pageInRange. vm_compute. intros [_ H]. apply H. reflexivity.
Qed.

(** C9, the code at the failing input. On page 2 of [catalog150] the
    Spanish tab is selected. The render that follows paginates the new
    result, one record on one page, with the page number 2 it still has:
    the page number is outside [[1, totalPages]] and the page is empty
    although the result is not. Only the effect, after that render, sets
    the page number to 1, and the record shows. *)
Theorem stale_page_is_paginated_after_filter_change :
  let on_page_2 := dispatch ascii_toLowerCase catalog150 NextPage initialState in
  let seen := handle ascii_toLowerCase catalog150 (SelectTab spanish) on_page_2 in
  let after := dispatch ascii_toLowerCase catalog150 (SelectTab spanish) on_page_2 in
  reachable ascii_toLowerCase catalog150 on_page_2
  /\ currentPage on_page_2 = 2
  /\ activeTab seen <> activeTab on_page_2
  /\ currentPage seen = 2
  /\ visible ascii_toLowerCase catalog150 seen = [mkShortcut "H1" "Hola" "spanish"]
  /\ pages ascii_toLowerCase catalog150 seen = 1
  /\ ~ pageInRange ascii_toLowerCase catalog150 seen
  /\ pageItems ascii_toLowerCase catalog150 seen = []
  /\ currentPage after = 1
  /\ pageItems ascii_toLowerCase catalog150 after
     = [mkShortcut "H1" "Hola" "spanish"].
Proof.
  cbv zeta. split; [apply reachable_dispatch; [constructor | reflexivity]|].
  unfold pageInRange. vm_compute.
  repeat (split; [first [reflexivity | discriminate | intros [_ H]; now apply H]|]).
  reflexivity.
Qed.

(* ===================================================================== *)
(** * Further properties of the code *)
(* ===================================================================== *)

(** ** Substring search *)

Lemma prefix_iff (p str : string) :
  String.prefix p str = true <-> exists rest, str = p ++ rest.
Proof.
  revert str; induction p as [|c p IH]; intros str.
  - split; [intros _; now exists str | intros _; now destruct str].
  - destruct str as [|d str]; simpl.
    + split; [discriminate | intros [rest H]; discriminate H].
    + destruct (ascii_dec c d) as [->|Hcd].
      * rewrite IH. split; intros [rest H]; exists rest; congruence.
      * split; [discriminate | intros [rest H]; congruence].
Qed.

(** [includes] holds exactly when [sub] sits somewhere inside [str]. *)
Lemma includes_iff (str sub : string) :
  JS.includes str sub = true <-> exists a b, str = a ++ sub ++ b.
Proof.
  induction str as [|c str IH].
  - cbn [JS.includes]. rewrite prefix_iff. split.
    + intros [rest H]. exists "", "".
      destruct sub; [reflexivity | discriminate H].
    + intros (a & b & H). destruct a; [|discriminate H].
      destruct sub; [now exists "" | discriminate H].
  - cbn [JS.includes]. rewrite orb_true_iff, prefix_iff, IH. split.
    + intros [[rest H] | (a & b & H)].
      * now exists "", rest.
      * exists (String c a), b. simpl. now rewrite H.
    + intros (a & b & H). destruct a as [|c' a].
      * left. now exists b.
      * right. exists a, b. simpl in H. congruence.
Qed.

Lemma includes_trans (a b c : string) :
  JS.includes a b = true -> JS.includes b c = true -> JS.includes a c = true.
Proof.
  rewrite !includes_iff. intros (x & y & ->) (u & v & ->).
  exists (x ++ u), (v ++ y). now rewrite !string_app_assoc.
Qed.

(** ** More on the filter *)

Section MoreFilterProperties.

Variable toLowerCase : string -> string.

Local Abbreviation filtered := (filteredData toLowerCase).

(** X5. A longer search text never adds results: when the lower-cased
    [txt1] occurs in the lower-cased [txt2] (and [txt2] is not empty), the
    result for [txt2] is the result of searching [txt2] within the result
    for [txt1], so every record found for [txt2] is found for [txt1]. *)
Theorem search_narrows
    (R : list ShortcutData) (c : SectionFilter) (txt1 txt2 : string) :
  txt2 <> "" ->
  JS.includes (toLowerCase txt2) (toLowerCase txt1) = true ->
  filtered R c txt2 = filtered (filtered R c txt1) c txt2
  /\ (forall r, In r (filtered R c txt2) -> In r (filtered R c txt1)).
Proof.
  intros Hne Hsub.
  assert (Hp : forall r, passesText toLowerCase txt2 r = true ->
                         passesText toLowerCase txt1 r = true).
  { intros r. unfold passesText, matchesText.
    destruct (String.eqb_spec txt2 "") as [?|_]; [contradiction|].
    destruct (String.eqb txt1 ""); [reflexivity|].
    rewrite !orb_true_iff.
    intros [H|H]; [left|right]; eapply includes_trans; eauto. }
  split.
  - rewrite !filteredData_filter, filter_filter_andb.
    apply filter_ext. intros r.
    destruct (passesCategory c r); simpl; [|reflexivity].
    destruct (passesText toLowerCase txt2 r) eqn:E; [|now rewrite andb_false_r].
    now rewrite (Hp r E).
  - intros r. rewrite !filteredData_filter, !filter_In, !andb_true_iff.
    intros (HR & Hc & Ht). auto.
Qed.

(** X6. The count on each tab is the number of results shown once the tab
    is selected with an empty search box. *)
Theorem tab_count_is_shown_count (data : list ShortcutData) (tab : SectionFilter) :
  tabCount (stats data) tab = shownCount (filtered data tab "").
Proof. destruct tab; reflexivity. Qed.

Lemma knownTag_cases (r : ShortcutData) :
  knownTag r ->
  (passesCategory universal r, passesCategory spanish r, passesCategory english r)
  = (true, false, false)
  \/ (passesCategory universal r, passesCategory spanish r, passesCategory english r)
     = (false, true, false)
  \/ (passesCategory universal r, passesCategory spanish r, passesCategory english r)
     = (false, false, true).
Proof. cbn [passesCategory sectionTag tabId]. intros [H|[H|H]]; rewrite H; auto. Qed.

(** X7. The three language tabs split the results of the tab All: for
    every search text, when every record of the catalog carries one of the
    tags all, spanish and english, the number of results under All is the
    sum of the numbers under Universal, Spanish and English. *)
Theorem tabs_partition_results (data : list ShortcutData) (txt : string) :
  Forall knownTag data ->
  shownCount (filtered data all txt)
  = shownCount (filtered data universal txt)
    + shownCount (filtered data spanish txt)
    + shownCount (filtered data english txt).
Proof.
  intros H. unfold shownCount. rewrite !filteredData_filter.
  induction H as [|r data Hr _ IH]; [reflexivity|].
  cbn [filter]. change (passesCategory all r) with true.
  pose proof (knownTag_cases r Hr) as E.
  destruct (passesCategory universal r), (passesCategory spanish r),
    (passesCategory english r);
    destruct E as [E|[E|E]]; try discriminate E; cbn [andb];
    destruct (passesText toLowerCase txt r); cbn [List.length]; lia.
Qed.

(** X8. The badge of a row agrees with the tab it is listed under: every
    record retained under a tab other than All is labelled with the label
    of that tab. *)
Theorem badge_agrees_with_tab
    (data : list ShortcutData) (tab : SectionFilter) (txt : string)
    (r : ShortcutData) :
  tab <> all -> In r (filtered data tab txt) -> sectionLabel r = tabLabel tab.
Proof.
  intros Htab. rewrite filteredData_filter, filter_In, andb_true_iff.
  intros (_ & Hc & _). unfold sectionLabel.
  destruct tab; [contradiction| | |]; simpl in Hc;
    apply String.eqb_eq in Hc; now rewrite Hc.
Qed.

(** X9. A record whose tag is none of all, spanish and english is labelled
    Universal, yet it is listed under the tab All only. *)
Theorem unknown_tag_is_universal_by_label_only
    (data : list ShortcutData) (tab : SectionFilter) (txt : string)
    (r : ShortcutData) :
  ~ knownTag r ->
  sectionLabel r = "Universal"
  /\ (In r (filtered data tab txt) -> tab = all).
Proof.
  intros Hk. unfold knownTag in Hk. split.
  - unfold sectionLabel.
    destruct (String.eqb_spec (s r) "spanish"); [tauto|].
    destruct (String.eqb_spec (s r) "english"); [tauto|reflexivity].
  - rewrite filteredData_filter, filter_In, andb_true_iff.
    intros (_ & Hc & _).
    destruct tab; [reflexivity| | |]; simpl in Hc;
      apply String.eqb_eq in Hc; tauto.
Qed.

End MoreFilterProperties.

(** ** More on pagination *)

Lemma paginatedData_length (l : list ShortcutData) (pageSize currentPage : Z) :
  0 < pageSize -> 1 <= currentPage ->
  Z.of_nat (List.length (paginatedData l pageSize currentPage))
  = Z.max 0 (Z.min pageSize
                   (Z.of_nat (List.length l) - (currentPage - 1) * pageSize)).
Proof.
  intros Hs Hp. rewrite paginatedData_halfOpen, halfOpen_length by assumption.
  replace (currentPage * pageSize) with ((currentPage - 1) * pageSize + pageSize)
    by ring.
  assert (0 <= (currentPage - 1) * pageSize) by nia.
  set (A := (currentPage - 1) * pageSize) in *. lia.
Qed.

(** X10. Every page before the last is full, the last page holds the rest
    (at least one record), and a page past the last is empty. *)
Theorem page_sizes (l : list ShortcutData) (pageSize currentPage : Z) :
  0 < pageSize -> 1 <= currentPage ->
  (currentPage < totalPages l pageSize ->
   Z.of_nat (List.length (paginatedData l pageSize currentPage)) = pageSize)
  /\ (currentPage = totalPages l pageSize ->
      Z.of_nat (List.length (paginatedData l pageSize currentPage))
      = Z.of_nat (List.length l) - (totalPages l pageSize - 1) * pageSize
      /\ 1 <= Z.of_nat (List.length (paginatedData l pageSize currentPage))
           <= pageSize)
  /\ (totalPages l pageSize < currentPage ->
      paginatedData l pageSize currentPage = []).
Proof.
  intros Hs Hp.
  pose proof (paginatedData_length l pageSize currentPage Hs Hp) as L.
  pose proof (ceil_div_bounds (Z.of_nat (List.length l)) pageSize Hs) as B.
  fold (totalPages l pageSize) in B.
  set (tp := totalPages l pageSize) in *.
  split; [|split].
  - intros Hlt. rewrite L. nia.
  - intros ->. rewrite L. nia.
  - intros Hgt. apply length_zero_iff_nil.
    apply Nat2Z.inj. rewrite L. simpl Z.of_nat. nia.
Qed.

Lemma page_sizes_witness :
  (0 < 2 /\ 1 <= 2)
  /\ Z.of_nat (List.length
       (paginatedData [mkShortcut "a" "1" "all"; mkShortcut "b" "2" "spanish";
                       mkShortcut "c" "3" "english"] 2 2)) = 1.
Proof.
  split; [lia|].
  destruct (page_sizes [mkShortcut "a" "1" "all"; mkShortcut "b" "2" "spanish";
                        mkShortcut "c" "3" "english"] 2 2 ltac:(lia) ltac:(lia))
    as (_ & Hlast & _).
  destruct (Hlast eq_refl) as [Hlen _]. exact Hlen.
Defined.

Section MoreAppProperties.

Variable toLowerCase : string -> string.
Variable EXPANSIONS_DATA : list ShortcutData.

Local Abbreviation visible_ := (visible toLowerCase EXPANSIONS_DATA).
Local Abbreviation pages_ := (pages toLowerCase EXPANSIONS_DATA).
Local Abbreviation pageItems_ := (pageItems toLowerCase EXPANSIONS_DATA).
Local Abbreviation offered_ := (offered toLowerCase EXPANSIONS_DATA).
Local Abbreviation handle_ := (handle toLowerCase EXPANSIONS_DATA).
Local Abbreviation dispatch_ := (dispatch toLowerCase EXPANSIONS_DATA).
Local Abbreviation reachable_ := (reachable toLowerCase EXPANSIONS_DATA).

(** X11. In every state the component settles in, a result that is not
    empty is never shown as an empty page: the current page holds at least
    one record, and at most [itemsPerPage]. *)
Theorem settled_page_is_not_empty (st : State) :
  reachable_ st -> visible_ st <> [] ->
  pageItems_ st <> []
  /\ 1 <= Z.of_nat (List.length (pageItems_ st)) <= itemsPerPage.
Proof.
  intros Hreach Hne.
  pose proof (reachable_page_bounds _ _ _ Hreach) as Hb.
  pose proof (totalPages_nonempty _ Hne) as Hp. fold (pages_ st) in Hp.
  pose proof (ceil_div_bounds (Z.of_nat (List.length (visible_ st)))
                itemsPerPage eq_refl) as B.
  fold (totalPages (visible_ st) itemsPerPage) in B. fold (pages_ st) in B.
  assert (L : 1 <= Z.of_nat (List.length (pageItems_ st)) <= itemsPerPage).
  { unfold pageItems.
    rewrite paginatedData_length by (reflexivity || lia).
    unfold itemsPerPage in *. nia. }
  split; [|exact L].
  intros E. rewrite E in L. simpl in L. lia.
Qed.

Lemma dispatch_same_query (ev : Event) (st : State) :
  depsChanged st (handle_ ev st) = false -> dispatch_ ev st = handle_ ev st.
Proof. intros D. unfold dispatch, resetEffect. now rewrite D. Qed.

(** X12. Where the Next button can be pressed it moves forward by exactly
    one page, the Previous button can then be pressed, and pressing it
    brings the component back to the state it was in. *)
Theorem next_then_previous (st : State) :
  reachable_ st -> offered_ st NextPage = true ->
  currentPage (dispatch_ NextPage st) = currentPage st + 1
  /\ offered_ (dispatch_ NextPage st) PreviousPage = true
  /\ dispatch_ PreviousPage (dispatch_ NextPage st) = st.
Proof.
  intros Hreach Hoff.
  pose proof (reachable_page_bounds _ _ _ Hreach) as Hb.
  cbn [offered] in Hoff. apply andb_true_iff in Hoff as [Hshown Hlast].
  pose proof (totalPages_shown _ Hshown) as H2. fold (pages_ st) in H2.
  apply negb_true_iff, Z.eqb_neq in Hlast.
  assert (Hnext : dispatch_ NextPage st
                  = {| searchTerm := searchTerm st; activeTab := activeTab st;
                       currentPage := currentPage st + 1 |}).
  { rewrite dispatch_same_query.
    - cbn [handle]. f_equal. lia.
    - apply depsChanged_false. now split. }
  rewrite Hnext. split; [reflexivity|split].
  - cbn [offered]. apply andb_true_iff. split; [exact Hshown|].
    cbn [currentPage]. apply negb_true_iff, Z.eqb_neq. lia.
  - rewrite dispatch_same_query by (apply depsChanged_false; now split).
    cbn [handle activeTab searchTerm currentPage].
    destruct st as [txt tab page]. cbn in *. f_equal. lia.
Qed.

(** X4. The page reset is an effect, so it comes after a render: the
    render that follows an input that changed the category filter or the
    search text paginates the new result with the page number the
    component had before; when the new result has fewer pages than that
    number, the page it computes is empty. *)
Theorem filter_change_paginates_stale_page (st : State) (ev : Event) :
  reachable_ st ->
  depsChanged st (handle_ ev st) = true ->
  currentPage (handle_ ev st) = currentPage st
  /\ pageItems_ (handle_ ev st)
     = paginatedData (visible_ (handle_ ev st)) itemsPerPage (currentPage st)
  /\ (pages_ (handle_ ev st) < currentPage st -> pageItems_ (handle_ ev st) = []).
Proof.
  intros Hreach D.
  pose proof (reachable_page_bounds _ _ _ Hreach) as Hb.
  assert (Hsame : currentPage (handle_ ev st) = currentPage st).
  { destruct ev; try reflexivity; exfalso.
    - assert (F : depsChanged st (handle_ PreviousPage st) = false)
        by (apply depsChanged_false; now split).
      congruence.
    - assert (F : depsChanged st (handle_ NextPage st) = false)
        by (apply depsChanged_false; now split).
      congruence. }
  split; [exact Hsame|split].
  - unfold pageItems. now rewrite Hsame.
  - intros Hlt. unfold pageItems. apply length_zero_iff_nil, Nat2Z.inj.
    rewrite paginatedData_length by (reflexivity || lia).
    pose proof (ceil_div_bounds
                  (Z.of_nat (List.length (visible_ (handle_ ev st))))
                  itemsPerPage eq_refl) as B.
    fold (totalPages (visible_ (handle_ ev st)) itemsPerPage) in B.
    fold (pages_ (handle_ ev st)) in B.
    rewrite Hsame. unfold itemsPerPage in *. simpl Z.of_nat. nia.
Qed.

End MoreAppProperties.

Lemma settled_page_is_not_empty_witness :
  pageItems ascii_toLowerCase [mkShortcut "A1" "Hello" "english"] initialState
  <> [].
Proof.
  apply (settled_page_is_not_empty ascii_toLowerCase
           [mkShortcut "A1" "Hello" "english"] initialState).
  - constructor.
  - discriminate.
Defined.

Lemma next_then_previous_witness :
  dispatch ascii_toLowerCase catalog150 PreviousPage
    (dispatch ascii_toLowerCase catalog150 NextPage initialState)
  = initialState.
Proof.
  apply (next_then_previous ascii_toLowerCase catalog150 initialState).
  - constructor.
  - reflexivity.
Defined.

Lemma filter_change_paginates_stale_page_witness :
  pageItems ascii_toLowerCase catalog150
    (handle ascii_toLowerCase catalog150 (SelectTab spanish)
       (dispatch ascii_toLowerCase catalog150 NextPage initialState))
  = [].
Proof.
  refine (proj2 (proj2 (filter_change_paginates_stale_page
                          ascii_toLowerCase catalog150
                          (dispatch ascii_toLowerCase catalog150 NextPage initialState)
                          (SelectTab spanish) _ _)) _).
  - apply reachable_dispatch; [constructor | reflexivity].
  - reflexivity.
  - vm_compute. reflexivity.
Defined.

(** ** Rows and single copy *)

Lemma hasChar_app (c : ascii) (a b : string) :
  hasChar c (a ++ b) = hasChar c a || hasChar c b.
Proof.
  induction a as [|x a IH]; simpl; [reflexivity|].
  now rewrite IH, orb_assoc.
Qed.

Lemma digits_have_no_dash (d : Decimal.uint) :
  hasChar "-" (NilEmpty.string_of_uint d) = false.
Proof. induction d; simpl; auto. Qed.

Lemma numberToString_no_dash (n : Z) :
  0 <= n -> hasChar "-" (JS.numberToString n) = false.
Proof.
  intros Hn. unfold JS.numberToString.
  destruct n as [|p|p]; [reflexivity| |lia].
  cbn [Z.to_int NilZero.string_of_int NilZero.string_of_uint].
  destruct (Pos.to_uint p) eqn:E; try apply digits_have_no_dash.
  reflexivity.
Qed.

Lemma numberToString_inj (n m : Z) :
  JS.numberToString n = JS.numberToString m -> n = m.
Proof.
  unfold JS.numberToString. intros H.
  assert (Hnil : forall z, Z.to_int z <> Decimal.Pos Decimal.Nil
                           /\ Z.to_int z <> Decimal.Neg Decimal.Nil).
  { intros [|p|p]; simpl; split; try discriminate; intros E; injection E;
      apply DecimalPos.Unsigned.to_uint_nonnil. }
  apply DecimalZ.to_int_inj.
  assert (E : Some (Z.to_int n) = Some (Z.to_int m)).
  { rewrite <- (NilZero.isi (Z.to_int n)), <- (NilZero.isi (Z.to_int m))
      by apply Hnil.
    now rewrite H. }
  now injection E.
Qed.

(** A text that ends in a dash and a dash-free tail is cut in one way. *)
Lemma dash_split_unique (a b x y : string) :
  hasChar "-" x = false -> hasChar "-" y = false ->
  a ++ "-" ++ x = b ++ "-" ++ y -> a = b /\ x = y.
Proof.
  intros Hx Hy. revert b; induction a as [|c a IH]; intros [|d b] H; simpl in H.
  - injection H as ->. now split.
  - injection H as <- ->.
    rewrite hasChar_app in Hx. simpl in Hx. now rewrite orb_true_r in Hx.
  - injection H as -> <-.
    rewrite hasChar_app in Hy. simpl in Hy. now rewrite orb_true_r in Hy.
  - injection H as -> H. destruct (IH b H) as [-> ->]. now split.
Qed.

Lemma uniqueId_inj (r1 r2 : ShortcutData) (i j : Z) :
  0 <= i -> 0 <= j -> uniqueId r1 i = uniqueId r2 j -> k r1 = k r2 /\ i = j.
Proof.
  intros Hi Hj H. unfold uniqueId in H.
  apply dash_split_unique in H as [Hk Hn];
    try (apply numberToString_no_dash; assumption).
  split; [exact Hk | now apply numberToString_inj].
Qed.

Lemma NoDup_map_combine {A B C : Type} (f : A * B -> C)
    (l1 : list A) (l2 : list B) :
  NoDup l1 -> (forall x y, f x = f y -> fst x = fst y) ->
  NoDup (map f (combine l1 l2)).
Proof.
  intros Hnd Hf. revert l2; induction Hnd as [|a l1 Ha _ IH]; intros l2.
  - constructor.
  - destruct l2 as [|b l2]; [constructor|]. simpl. constructor; [|apply IH].
    intros Hin. apply in_map_iff in Hin as ([x y] & Hxy & Hin).
    apply Hf in Hxy. simpl in Hxy. subst x.
    apply in_combine_l in Hin. contradiction.
Qed.

(** X13. No two rows of a page have the same id, whatever the keywords are
    (two rows may well carry the same keyword): the id of a row tells its
    index. *)
Theorem row_ids_are_distinct (page : list ShortcutData) :
  NoDup (rowIds page)
  /\ (forall r1 r2 i j, 0 <= i -> 0 <= j ->
        uniqueId r1 i = uniqueId r2 j -> i = j).
Proof.
  split.
  - unfold rowIds. apply NoDup_map_combine; [apply seq_NoDup|].
    intros x y H. apply uniqueId_inj in H; try lia.
  - intros r1 r2 i j Hi Hj H. now apply uniqueId_inj in H.
Qed.

Lemma uniqueId_not_empty (item : ShortcutData) (idx : Z) :
  String.eqb (uniqueId item idx) "" = false.
Proof. unfold uniqueId. now destruct (k item). Qed.

(** X14. A click on a row writes the expansion of the row, unchanged, to the
    clipboard. When the write succeeds a success notification is raised
    and the row, and no other, is marked as copied; when it fails an error
    notification is raised and no row is marked. *)
Theorem copyRow_effects (item : ShortcutData) (idx : Z) :
  trace (copyRow item idx) Resolved
  = [ClipboardWrite (e item);
     ShowToast "Copied to clipboard!" success;
     SetCopiedId (uniqueId item idx)]
  /\ trace (copyRow item idx) Rejected
     = [ClipboardWrite (e item); ShowToast "Failed to copy" error]
  /\ copiedIds (trace (copyRow item idx) Rejected) = [].
Proof.
  unfold copyRow, copyToClipboard, trace. cbn [sync settled app].
  rewrite uniqueId_not_empty. repeat split.
Qed.

Example rowIds_same_keyword :
  rowIds [mkShortcut "A1" "Hello" "english"; mkShortcut "A1" "Hola" "spanish"]
  = ["A1-0"; "A1-1"].
Proof. reflexivity. Qed.


(** ** Reading the delimited text back *)

Lemma string_app_snoc (a : string) (c : ascii) (b : string) :
  (a ++ String c "") ++ b = a ++ String c b.
Proof. now rewrite string_app_assoc. Qed.

(** Inside a quoted field, an escaped text is read as the text. *)
Lemma read_quoted_body (x field : string) (row : list string)
    (rows : list (list string)) (rest : string) :
  Csv.read Csv.Quoted field row rows (doubleQuotes x ++ rest)
  = Csv.read Csv.Quoted (field ++ x) row rows rest.
Proof.
  revert field; induction x as [|c x IH]; intros field.
  - simpl. now rewrite string_app_nil_r.
  - unfold doubleQuotes in *. cbn [JS.replaceAll].
    rewrite string_app_assoc.
    destruct (Ascii.eqb_spec c dquote) as [->|Hc].
    + cbn. rewrite IH. now rewrite string_app_snoc.
    + cbn [append Csv.read].
      destruct (Ascii.eqb_spec c dquote); [contradiction|].
      rewrite IH. now rewrite string_app_snoc.
Qed.

Lemma read_quoted_field (x : string) (row : list string)
    (rows : list (list string)) (rest : string) :
  Csv.read Csv.FieldStart "" row rows (quotedField x ++ rest)
  = Csv.read Csv.QuoteSeen x row rows rest.
Proof.
  unfold quotedField. rewrite !string_app_assoc.
  cbn. rewrite read_quoted_body. reflexivity.
Qed.

Lemma read_after_field_comma (x : string) (row : list string)
    (rows : list (list string)) (rest : string) :
  Csv.read Csv.QuoteSeen x row rows ("," ++ rest)
  = Csv.read Csv.FieldStart "" (row ++ [x])%list rows rest.
Proof. reflexivity. Qed.

Lemma read_after_field_lf (x : string) (row : list string)
    (rows : list (list string)) (rest : string) :
  Csv.read Csv.QuoteSeen x row rows (LF ++ rest)
  = Csv.read Csv.FieldStart "" [] (rows ++ [row ++ [x]])%list rest.
Proof. reflexivity. Qed.

(** One exported line is read as one record of three fields. *)
Lemma read_recordLine (r : ShortcutData) (rows : list (list string))
    (rest : string) :
  hasChar dquote (s r) = false ->
  Csv.read Csv.FieldStart "" [] rows (recordLine r ++ rest)
  = Csv.read Csv.FieldStart "" [] (rows ++ [exportedFields r])%list rest.
Proof.
  intros Hs. unfold recordLine.
  replace (DQ ++ s r ++ DQ ++ LF) with (quotedField (s r) ++ LF)
    by (unfold quotedField, doubleQuotes;
        now rewrite (replaceAll_absent _ _ _ Hs), !string_app_assoc).
  rewrite !string_app_assoc.
  rewrite read_quoted_field, read_after_field_comma.
  rewrite read_quoted_field, read_after_field_comma.
  rewrite read_quoted_field, read_after_field_lf.
  reflexivity.
Qed.

Lemma read_lines (records : list ShortcutData) (rows : list (list string)) :
  Forall (fun r => hasChar dquote (s r) = false) records ->
  Csv.read Csv.FieldStart "" [] rows
    (String.concat "" (map recordLine records))
  = Some (rows ++ map exportedFields records)%list.
Proof.
  intros H. revert rows; induction H as [|r records Hr _ IH]; intros rows.
  - simpl. now rewrite app_nil_r.
  - cbn [map]. rewrite string_concat_cons, read_recordLine by exact Hr.
    rewrite IH, <- app_assoc. reflexivity.
Qed.

Lemma read_header (rest : string) :
  Csv.read Csv.FieldStart "" [] [] (csvHeader ++ LF ++ rest)
  = Csv.read Csv.FieldStart "" [] [["Shortcut"; "Expansion"; "Language"]] rest.
Proof. reflexivity. Qed.

(** X15. The delimited-text export reads back (after RFC 4180) as the
    header record followed by one record per exported record, with the
    keyword and the category unchanged and the expansion changed only in
    that its line feeds are spaces; this for records whose category holds
    no double quote. Commas, double quotes and, in the keyword, line feeds
    come back as they were. *)
Theorem csv_export_reads_back (records : list ShortcutData) :
  Forall (fun r => hasChar dquote (s r) = false) records ->
  Csv.parse (csvText records)
  = Some (["Shortcut"; "Expansion"; "Language"]
            :: map exportedFields records).
Proof.
  intros H. rewrite csvText_lines, (map_ext _ _ csvLine_recordLine).
  unfold Csv.parse. now rewrite read_header, read_lines.
Qed.

Lemma csv_export_reads_back_witness :
  Csv.parse (csvText [mkShortcut ("A" ++ LF ++ "1")
                                 ("Hello, " ++ DQ ++ "World" ++ DQ) "english"])
  = Some [["Shortcut"; "Expansion"; "Language"];
          ["A" ++ LF ++ "1"; "Hello, " ++ DQ ++ "World" ++ DQ; "english"]].
Proof.
  apply (csv_export_reads_back
           [mkShortcut ("A" ++ LF ++ "1")
                       ("Hello, " ++ DQ ++ "World" ++ DQ) "english"]).
  repeat constructor.
Defined.

(** With a double quote in the category the exported text is not well
    formed. *)
Example csv_export_category_quote_unreadable :
  Csv.parse (csvText [mkShortcut "A1" "Hello" ("en" ++ DQ ++ "US")]) = None.
Proof. reflexivity. Qed.


(** ** Reading the structured text back *)

Example parse_jsonText_one_record :
  JsonReader.parse
    (jsonText [mkShortcut "A1" ("Hello, " ++ DQ ++ "World" ++ DQ ++ LF) "english"])
  = Some [[("k", "A1"); ("e", "Hello, " ++ DQ ++ "World" ++ DQ ++ LF);
           ("s", "english")]].
Proof. vm_compute. reflexivity. Qed.

Example parse_json_escapes :
  JsonReader.parse
    ("[ {" ++ DQ ++ "aA\n\/" ++ DQ ++ ":" ++ DQ ++ "\u00e9\u0041" ++ DQ ++ "} ]")
  = Some [[("aA" ++ LF ++ "/", String (ascii_of_nat 233) "A")]].
Proof. vm_compute. reflexivity. Qed.

(** Inside a string, the escape of a character is read as the character. *)
Lemma read_quoteChar (c : ascii) (isKey : bool) (buf key : string)
    (obj : JsonReader.Members) (objs : list JsonReader.Members) (rest : string) :
  JsonReader.read (JsonReader.InString isKey) buf key obj objs
    (JSON.quoteChar c ++ rest)
  = JsonReader.read (JsonReader.InString isKey) (buf ++ String c "")
      key obj objs rest.
Proof.
  destruct c as [[] [] [] [] [] [] [] []]; reflexivity.
Qed.

Lemma read_quoteBody (x : string) (isKey : bool) (buf key : string)
    (obj : JsonReader.Members) (objs : list JsonReader.Members) (rest : string) :
  JsonReader.read (JsonReader.InString isKey) buf key obj objs
    (JSON.quoteBody x ++ rest)
  = JsonReader.read (JsonReader.InString isKey) (buf ++ x) key obj objs rest.
Proof.
  revert buf; induction x as [|c x IH]; intros buf.
  - simpl. now rewrite string_app_nil_r.
  - cbn [JSON.quoteBody].
    now rewrite string_app_assoc, read_quoteChar, IH, string_app_snoc.
Qed.

Section ReadRecord.

Variables (buf key : string) (obj : JsonReader.Members)
          (objs : list JsonReader.Members) (rest : string).

Lemma read_first_member_at_ArrayOpen :
  JsonReader.read JsonReader.ArrayOpen buf key obj objs
    ("{" ++ LF ++ "    " ++ DQ ++ "k" ++ DQ ++ ": " ++ DQ ++ rest)
  = JsonReader.read (JsonReader.InString false) "" "k" [] objs rest.
Proof. reflexivity. Qed.

Lemma read_first_member_at_NextObject :
  JsonReader.read JsonReader.NextObject buf key obj objs
    ("{" ++ LF ++ "    " ++ DQ ++ "k" ++ DQ ++ ": " ++ DQ ++ rest)
  = JsonReader.read (JsonReader.InString false) "" "k" [] objs rest.
Proof. reflexivity. Qed.

Lemma read_member_e :
  JsonReader.read (JsonReader.InString false) buf key obj objs
    (DQ ++ "," ++ LF ++ "    " ++ DQ ++ "e" ++ DQ ++ ": " ++ DQ ++ rest)
  = JsonReader.read (JsonReader.InString false) "" "e"
      (obj ++ [(key, buf)])%list objs rest.
Proof. reflexivity. Qed.

Lemma read_member_s :
  JsonReader.read (JsonReader.InString false) buf key obj objs
    (DQ ++ "," ++ LF ++ "    " ++ DQ ++ "s" ++ DQ ++ ": " ++ DQ ++ rest)
  = JsonReader.read (JsonReader.InString false) "" "s"
      (obj ++ [(key, buf)])%list objs rest.
Proof. reflexivity. Qed.

Lemma read_object_end :
  JsonReader.read (JsonReader.InString false) buf key obj objs
    (DQ ++ LF ++ "  }" ++ rest)
  = JsonReader.read JsonReader.AfterObject "" "" []
      (objs ++ [(obj ++ [(key, buf)])%list])%list rest.
Proof. reflexivity. Qed.

Lemma read_array_start :
  JsonReader.read JsonReader.Start buf key obj objs ("[" ++ LF ++ "  " ++ rest)
  = JsonReader.read JsonReader.ArrayOpen "" "" [] objs rest.
Proof. reflexivity. Qed.

Lemma read_object_separator :
  JsonReader.read JsonReader.AfterObject buf key obj objs
    ("," ++ LF ++ "  " ++ rest)
  = JsonReader.read JsonReader.NextObject "" "" [] objs rest.
Proof. reflexivity. Qed.

Lemma read_array_end :
  JsonReader.read JsonReader.AfterObject buf key obj objs (LF ++ "" ++ "]")
  = Some objs.
Proof. reflexivity. Qed.

End ReadRecord.

Lemma recordText_pieces (r : ShortcutData) (rest : string) :
  recordText r ++ rest
  = "{" ++ LF ++ "    " ++ DQ ++ "k" ++ DQ ++ ": " ++ DQ
      ++ JSON.quoteBody (k r)
      ++ DQ ++ "," ++ LF ++ "    " ++ DQ ++ "e" ++ DQ ++ ": " ++ DQ
      ++ JSON.quoteBody (e r)
      ++ DQ ++ "," ++ LF ++ "    " ++ DQ ++ "s" ++ DQ ++ ": " ++ DQ
      ++ JSON.quoteBody (s r)
      ++ DQ ++ LF ++ "  }" ++ rest.
Proof.
  unfold recordText, memberText, JSON.quote.
  now rewrite !string_app_assoc.
Qed.

(** One exported object is read as the three members of its record. *)
Lemma read_recordText (r : ShortcutData) (first : bool) (buf key : string)
    (obj : JsonReader.Members) (objs : list JsonReader.Members) (rest : string) :
  JsonReader.read
    (if first then JsonReader.ArrayOpen else JsonReader.NextObject)
    buf key obj objs (recordText r ++ rest)
  = JsonReader.read JsonReader.AfterObject "" "" []
      (objs ++ [exportedMembers r])%list rest.
Proof.
  rewrite recordText_pieces.
  assert (E : JsonReader.read
                (if first then JsonReader.ArrayOpen else JsonReader.NextObject)
                buf key obj objs
                ("{" ++ LF ++ "    " ++ DQ ++ "k" ++ DQ ++ ": " ++ DQ
                     ++ JSON.quoteBody (k r)
                     ++ DQ ++ "," ++ LF ++ "    " ++ DQ ++ "e" ++ DQ ++ ": " ++ DQ
                     ++ JSON.quoteBody (e r)
                     ++ DQ ++ "," ++ LF ++ "    " ++ DQ ++ "s" ++ DQ ++ ": " ++ DQ
                     ++ JSON.quoteBody (s r)
                     ++ DQ ++ LF ++ "  }" ++ rest)
              = JsonReader.read (JsonReader.InString false) "" "k" [] objs
                  (JSON.quoteBody (k r)
                     ++ DQ ++ "," ++ LF ++ "    " ++ DQ ++ "e" ++ DQ ++ ": " ++ DQ
                     ++ JSON.quoteBody (e r)
                     ++ DQ ++ "," ++ LF ++ "    " ++ DQ ++ "s" ++ DQ ++ ": " ++ DQ
                     ++ JSON.quoteBody (s r)
                     ++ DQ ++ LF ++ "  }" ++ rest)).
  { destruct first;
      [apply read_first_member_at_ArrayOpen
      | apply read_first_member_at_NextObject]. }
  rewrite E.
  rewrite read_quoteBody, read_member_e.
  rewrite read_quoteBody, read_member_s.
  rewrite read_quoteBody, read_object_end.
  reflexivity.
Qed.

Lemma join_cons_concat (sep : string) (f : ShortcutData -> string)
    (r : ShortcutData) (rs : list ShortcutData) :
  JS.join sep (map f (r :: rs))
  = f r ++ String.concat "" (map (fun x => sep ++ f x) rs).
Proof.
  revert r; induction rs as [|r' rs IH]; intros r.
  - simpl. now rewrite string_app_nil_r.
  - change (JS.join sep (map f (r :: r' :: rs)))
      with (f r ++ sep ++ JS.join sep (map f (r' :: rs))).
    rewrite IH. cbn [map]. rewrite string_concat_cons.
    now rewrite !string_app_assoc.
Qed.

Lemma read_more_records (rs : list ShortcutData)
    (objs : list JsonReader.Members) :
  JsonReader.read JsonReader.AfterObject "" "" [] objs
    (String.concat "" (map (fun x => ("," ++ LF ++ "  ") ++ recordText x) rs)
       ++ LF ++ "" ++ "]")
  = Some (objs ++ map exportedMembers rs)%list.
Proof.
  revert objs; induction rs as [|r rs IH]; intros objs.
  - cbn [map String.concat]. rewrite app_nil_r. apply read_array_end.
  - cbn [map]. rewrite string_concat_cons, !string_app_assoc.
    rewrite read_object_separator.
    rewrite (read_recordText r false), IH, <- app_assoc. reflexivity.
Qed.

(** X16. The structured-text export loses nothing: for every record
    sequence, reading the exported JSON text back gives, for each record
    in order, the members k, e and s with exactly the keyword, the
    expansion and the category of the record, whatever characters they
    hold (double quotes, backslashes, line feeds, control characters). *)
Theorem json_export_reads_back (records : list ShortcutData) :
  JsonReader.parse (jsonText records) = Some (map exportedMembers records).
Proof.
  rewrite jsonText_wrap. unfold JsonReader.parse.
  destruct records as [|r rs]; [reflexivity|].
  unfold JSON.wrap. cbn [map String.eqb Ascii.eqb Bool.eqb].
  change (recordText r :: map recordText rs) with (map recordText (r :: rs)).
  rewrite join_cons_concat, !string_app_assoc.
  rewrite read_array_start, (read_recordText r true).
  apply read_more_records.
Qed.


(** ** The toast and the copied mark over time *)

Lemma insertByDue_In (tm x : Z * Callback) (l : list (Z * Callback)) :
  In x (insertByDue tm l) <-> x = tm \/ In x l.
Proof.
  induction l as [|y l IH]; simpl.
  - intuition congruence.
  - destruct (fst tm <? fst y); simpl; [intuition congruence|].
    rewrite IH. intuition congruence.
Qed.

Lemma byDue_In (x : Z * Callback) (l : list (Z * Callback)) :
  In x (byDue l) <-> In x l.
Proof.
  unfold byDue.
  assert (G : forall acc, In x (fold_left (fun sorted tm => insertByDue tm sorted) l acc)
                          <-> In x acc \/ In x l).
  { induction l as [|y l IH]; intros acc; simpl; [tauto|].
    rewrite IH, insertByDue_In. intuition congruence. }
  rewrite G. simpl. tauto.
Qed.

Lemma fire_all_fields (l : list (Z * Callback)) (scr : Screen) :
  let out := fold_left (fun acc tm => fire (snd tm) acc) l scr in
  clock out = clock scr
  /\ timers out = timers scr
  /\ toast out = (if existsb isClearToast l then None else toast scr)
  /\ copiedId out = (if existsb isClearCopiedId l then None else copiedId scr).
Proof.
  cbv zeta. revert scr; induction l as [|[d cb] l IH]; intros scr.
  - simpl. auto.
  - cbn [fold_left existsb snd]. destruct (IH (fire cb scr)) as (Hc & Ht & Hto & Hco).
    rewrite Hc, Ht, Hto, Hco.
    change (isClearToast (d, cb)) with
      (match cb with ClearToast => true | ClearCopiedId => false end).
    change (isClearCopiedId (d, cb)) with
      (match cb with ClearCopiedId => true | ClearToast => false end).
    destruct (existsb isClearToast l), (existsb isClearCopiedId l), cb;
      cbn; auto.
Qed.

Lemma existsb_byDue (p : Z * Callback -> bool) (l : list (Z * Callback)) :
  existsb p (byDue l) = existsb p l.
Proof.
  apply eq_true_iff_eq. rewrite !existsb_exists.
  split; intros (x & Hx & Hp); exists x; split; auto; now apply byDue_In.
Qed.

Lemma elapse_fields (dt : Z) (scr : Screen) :
  clock (elapse dt scr) = clock scr + dt
  /\ timers (elapse dt scr)
     = filter (fun tm => negb (fst tm <=? clock scr + dt)) (timers scr)
  /\ toast (elapse dt scr)
     = (if existsb isClearToast
             (filter (fun tm => fst tm <=? clock scr + dt) (timers scr))
        then None else toast scr)
  /\ copiedId (elapse dt scr)
     = (if existsb isClearCopiedId
             (filter (fun tm => fst tm <=? clock scr + dt) (timers scr))
        then None else copiedId scr).
Proof.
  unfold elapse.
  destruct (fire_all_fields
              (byDue (filter (fun tm => fst tm <=? clock scr + dt) (timers scr)))
              {| clock := clock scr + dt; toast := toast scr;
                 copiedId := copiedId scr;
                 timers := filter (fun tm => negb (fst tm <=? clock scr + dt))
                                  (timers scr) |})
    as (Hc & Ht & Hto & Hco).
  rewrite Hc, Ht, Hto, Hco, !existsb_byDue. auto.
Qed.

Lemma existsb_clear_false (p : Z * Callback -> bool) (cb : Callback)
    (l : list (Z * Callback)) (now d : Z) :
  p (d, cb) = true ->
  existsb p (filter (fun tm => fst tm <=? now) l) = false ->
  In (d, cb) l -> In (d, cb) (filter (fun tm => negb (fst tm <=? now)) l).
Proof.
  intros Hp He Hin. apply filter_In. split; [exact Hin|].
  destruct (fst (d, cb) <=? now) eqn:E; [|reflexivity].
  exfalso. apply Bool.not_true_iff_false in He. apply He.
  apply existsb_exists. exists (d, cb). split; [|exact Hp].
  apply filter_In. now split.
Qed.

Lemma shows_invariant (scr : Screen) : shows scr -> screenInvariant scr.
Proof.
  induction 1 as [now|dt scr Hdt _ IH|eff scr _ IH].
  - repeat split; simpl; try contradiction; intros H; now contradiction H.
  - destruct IH as (Hdue & Htoast & Hmark).
    destruct (elapse_fields dt scr) as (Hc & Ht & Hto & Hco).
    unfold screenInvariant. rewrite Hc, Ht, Hto, Hco. repeat split.
    + apply filter_In in H as [_ H]. apply negb_true_iff, Z.leb_gt in H. lia.
    + apply filter_In in H as [H _]. apply Hdue in H. lia.
    + destruct (existsb isClearToast _) eqn:E; [intros F; now contradiction F|].
      intros Hsome. destruct (Htoast Hsome) as [d Hd]. exists d.
      now apply (existsb_clear_false isClearToast).
    + destruct (existsb isClearCopiedId _) eqn:E; [intros F; now contradiction F|].
      intros Hsome. destruct (Hmark Hsome) as (d & Hd & Hle). exists d.
      split; [now apply (existsb_clear_false isClearCopiedId) | lia].
  - destruct IH as (Hdue & Htoast & Hmark).
    destruct eff as [m ty|txt|i|f mi c]; cbn [perform];
      try exact (conj Hdue (conj Htoast Hmark)).
    + unfold screenInvariant, showToastOn. cbn. repeat split.
      * apply in_app_iff in H as [H|[<-|[]]]; [apply Hdue in H; lia | simpl; lia].
      * apply in_app_iff in H as [H|[<-|[]]]; [apply Hdue in H; lia | simpl; lia].
      * intros _. exists (clock scr + 3000). apply in_app_iff. right. now left.
      * intros Hsome. destruct (Hmark Hsome) as (d & Hd & Hle). exists d.
        split; [apply in_app_iff; now left | exact Hle].
    + unfold screenInvariant, markCopiedOn. cbn. repeat split.
      * apply in_app_iff in H as [H|[<-|[]]]; [apply Hdue in H; lia | simpl; lia].
      * apply in_app_iff in H as [H|[<-|[]]]; [apply Hdue in H; lia | simpl; lia].
      * intros Hsome. destruct (Htoast Hsome) as [d Hd]. exists d.
        apply in_app_iff; now left.
      * intros _. exists (clock scr + 1500).
        split; [apply in_app_iff; right; now left | lia].
Qed.

(** X17. A toast never outlives 3000 ms and a copied mark never outlives
    1500 ms: on every screen the component can show, once 3000 ms pass
    without a new action no toast is shown, and once 1500 ms pass no row
    is marked as copied. *)
Theorem toast_and_mark_expire (scr : Screen) (dt : Z) :
  shows scr ->
  (3000 <= dt -> toast (elapse dt scr) = None)
  /\ (1500 <= dt -> copiedId (elapse dt scr) = None).
Proof.
  intros Hshows. destruct (shows_invariant scr Hshows) as (Hdue & Htoast & Hmark).
  destruct (elapse_fields dt scr) as (_ & _ & Hto & Hco).
  rewrite Hto, Hco. split; intros Hdt.
  - destruct (existsb isClearToast _) eqn:E; [reflexivity|].
    destruct (toast scr) eqn:T; [|reflexivity].
    destruct (Htoast ltac:(discriminate)) as [d Hd].
    pose proof (Hdue _ Hd) as Hd'. simpl in Hd'.
    apply (existsb_clear_false isClearToast _ _ (clock scr + dt)) in Hd;
      [|reflexivity|exact E].
    apply filter_In in Hd as [_ Hd]. apply negb_true_iff, Z.leb_gt in Hd.
    simpl in Hd. lia.
  - destruct (existsb isClearCopiedId _) eqn:E; [reflexivity|].
    destruct (copiedId scr) eqn:T; [|reflexivity].
    destruct (Hmark ltac:(discriminate)) as (d & Hd & Hle).
    apply (existsb_clear_false isClearCopiedId _ _ (clock scr + dt)) in Hd;
      [|reflexivity|exact E].
    apply filter_In in Hd as [_ Hd]. apply negb_true_iff, Z.leb_gt in Hd.
    simpl in Hd. lia.
Qed.

Lemma toast_and_mark_expire_witness :
  toast (elapse 3000 (perform (ShowToast "Copied to clipboard!" success)
                              (initialScreen 0))) = None.
Proof.
  apply (toast_and_mark_expire
           (perform (ShowToast "Copied to clipboard!" success) (initialScreen 0))
           3000).
  - apply shows_perform, shows_initial.
  - lia.
Defined.

Lemma existsb_ready (p : Z * Callback -> bool) (tm : Z * Callback)
    (l : list (Z * Callback)) (now : Z) :
  In tm l -> fst tm <= now -> p tm = true ->
  existsb p (filter (fun x => fst x <=? now) l) = true.
Proof.
  intros Hin Hdue Hp. apply existsb_exists. exists tm. split; [|exact Hp].
  apply filter_In. split; [exact Hin | now apply Z.leb_le].
Qed.

Lemma still_waiting (tm : Z * Callback) (l : list (Z * Callback)) (now : Z) :
  In tm l -> now < fst tm ->
  In tm (filter (fun x => negb (fst x <=? now)) l).
Proof.
  intros Hin Hdue. apply filter_In. split; [exact Hin|].
  now apply negb_true_iff, Z.leb_gt.
Qed.

(** X18. The timers are never cancelled, so a toast raised while an
    earlier one is still showing is taken down by a timer that is not its
    own: raised [d] ms after the earlier one (less than 3000), it is gone
    [3000 - d] ms after it was raised at the latest; and when no timer of
    a still older toast is pending, it shows until exactly then. *)
Theorem later_toast_is_cleared_early
    (scr : Screen) (m0 m1 : string) (ty0 ty1 : ToastType) (d : Z) :
  0 <= d < 3000 ->
  toast (showToastOn m1 ty1 (elapse d (showToastOn m0 ty0 scr)))
  = Some (Toast.mk (clock scr + d) m1 ty1)
  /\ toast (elapse (3000 - d)
              (showToastOn m1 ty1 (elapse d (showToastOn m0 ty0 scr))))
     = None
  /\ ((forall tm, In tm (timers scr) -> isClearToast tm = false) ->
      forall t, 0 <= t < 3000 - d ->
      toast (elapse t (showToastOn m1 ty1 (elapse d (showToastOn m0 ty0 scr))))
      = Some (Toast.mk (clock scr + d) m1 ty1)).
Proof.
  intros Hd.
  set (s0 := showToastOn m0 ty0 scr).
  destruct (elapse_fields d s0) as (Hc & Ht & _ & _).
  set (s1 := elapse d s0) in *.
  assert (Hc0 : clock s0 = clock scr) by reflexivity.
  assert (Hshown : toast (showToastOn m1 ty1 s1)
                   = Some (Toast.mk (clock scr + d) m1 ty1)).
  { unfold showToastOn at 1. cbn [toast]. now rewrite Hc, Hc0. }
  split; [exact Hshown|split].
  - destruct (elapse_fields (3000 - d) (showToastOn m1 ty1 s1)) as (_ & _ & Hto & _).
    rewrite Hto.
    rewrite (existsb_ready isClearToast (clock scr + 3000, ClearToast));
      [reflexivity| |cbn [fst clock showToastOn]; lia|reflexivity].
    cbn [timers showToastOn]. apply in_app_iff. left. rewrite Ht.
    apply still_waiting; [|cbn [fst]; lia].
    unfold s0, showToastOn. cbn [timers]. apply in_app_iff. right. now left.
  - intros Hold t Htime.
    destruct (elapse_fields t (showToastOn m1 ty1 s1)) as (_ & _ & Hto & _).
    rewrite Hto, Hshown.
    destruct (existsb isClearToast _) eqn:E; [|reflexivity].
    exfalso. apply existsb_exists in E as (tm & Hin & Hp).
    apply filter_In in Hin as [Hin Hdue]. apply Z.leb_le in Hdue.
    cbn [timers clock showToastOn] in Hin, Hdue. rewrite Hc, Hc0 in Hin, Hdue.
    apply in_app_iff in Hin as [Hin|[<-|[]]]; [|cbn [fst] in Hdue; lia].
    rewrite Ht in Hin. apply filter_In in Hin as [Hin _].
    unfold s0, showToastOn in Hin. cbn [timers] in Hin.
    apply in_app_iff in Hin as [Hin|[<-|[]]]; [|cbn [fst] in Hdue; lia].
    rewrite (Hold _ Hin) in Hp. discriminate Hp.
Qed.

Lemma later_toast_is_cleared_early_witness :
  (0 <= 2000 < 3000)
  /\ toast (elapse 1000
              (showToastOn "Failed to copy" error
                 (elapse 2000
                    (showToastOn "Copied 1 items!" success (initialScreen 0)))))
     = None
  /\ toast (elapse 999
              (showToastOn "Failed to copy" error
                 (elapse 2000
                    (showToastOn "Copied 1 items!" success (initialScreen 0)))))
     = Some (Toast.mk 2000 "Failed to copy" error).
Proof.
  split; [lia|].
  destruct (later_toast_is_cleared_early (initialScreen 0)
              "Copied 1 items!" "Failed to copy" success error 2000
              ltac:(lia)) as (_ & Hgone & Hshows).
  split; [exact Hgone|].
  apply Hshows; [intros tm []|lia].
Defined.

(** X19. In the same way a row marked as copied while an earlier mark is
    still pending is unmarked by a timer that is not its own: marked [d]
    ms after the earlier one (less than 1500), it is unmarked [1500 - d]
    ms after it was marked at the latest; and when no timer of a still
    older mark is pending, it stays marked until exactly then. *)
Theorem later_mark_is_cleared_early (scr : Screen) (id0 id1 : string) (d : Z) :
  0 <= d < 1500 ->
  copiedId (markCopiedOn id1 (elapse d (markCopiedOn id0 scr))) = Some id1
  /\ copiedId (elapse (1500 - d)
                 (markCopiedOn id1 (elapse d (markCopiedOn id0 scr))))
     = None
  /\ ((forall tm, In tm (timers scr) -> isClearCopiedId tm = false) ->
      forall t, 0 <= t < 1500 - d ->
      copiedId (elapse t (markCopiedOn id1 (elapse d (markCopiedOn id0 scr))))
      = Some id1).
Proof.
  intros Hd.
  set (s0 := markCopiedOn id0 scr).
  destruct (elapse_fields d s0) as (Hc & Ht & _ & _).
  set (s1 := elapse d s0) in *.
  assert (Hc0 : clock s0 = clock scr) by reflexivity.
  split; [reflexivity|split].
  - destruct (elapse_fields (1500 - d) (markCopiedOn id1 s1)) as (_ & _ & _ & Hco).
    rewrite Hco.
    rewrite (existsb_ready isClearCopiedId (clock scr + 1500, ClearCopiedId));
      [reflexivity| |cbn [fst clock markCopiedOn]; lia|reflexivity].
    cbn [timers markCopiedOn]. apply in_app_iff. left. rewrite Ht.
    apply still_waiting; [|cbn [fst]; lia].
    unfold s0, markCopiedOn. cbn [timers]. apply in_app_iff. right. now left.
  - intros Hold t Htime.
    destruct (elapse_fields t (markCopiedOn id1 s1)) as (_ & _ & _ & Hco).
    rewrite Hco. cbn [copiedId markCopiedOn].
    destruct (existsb isClearCopiedId _) eqn:E; [|reflexivity].
    exfalso. apply existsb_exists in E as (tm & Hin & Hp).
    apply filter_In in Hin as [Hin Hdue]. apply Z.leb_le in Hdue.
    cbn [timers clock markCopiedOn] in Hin, Hdue. rewrite Hc, Hc0 in Hin, Hdue.
    apply in_app_iff in Hin as [Hin|[<-|[]]]; [|cbn [fst] in Hdue; lia].
    rewrite Ht in Hin. apply filter_In in Hin as [Hin _].
    unfold s0, markCopiedOn in Hin. cbn [timers] in Hin.
    apply in_app_iff in Hin as [Hin|[<-|[]]]; [|cbn [fst] in Hdue; lia].
    rewrite (Hold _ Hin) in Hp. discriminate Hp.
Qed.

Lemma later_mark_is_cleared_early_witness :
  (0 <= 1000 < 1500)
  /\ copiedId (elapse 500
                 (markCopiedOn "A1-1"
                    (elapse 1000 (markCopiedOn "A1-0" (initialScreen 0)))))
     = None
  /\ copiedId (elapse 499
                 (markCopiedOn "A1-1"
                    (elapse 1000 (markCopiedOn "A1-0" (initialScreen 0)))))
     = Some "A1-1".
Proof.
  split; [lia|].
  destruct (later_mark_is_cleared_early (initialScreen 0) "A1-0" "A1-1" 1000
              ltac:(lia)) as (_ & Hgone & Hstays).
  split; [exact Hgone|].
  apply Hstays; [intros tm []|lia].
Defined.

(** X20. What bulk copy leaves on the screen never tells the count. The
    toast with the count is raised at once; when the clipboard answers,
    [delay] ms later, it is replaced by the toast of [copyToClipboard]:
    Copied to clipboard! if the write succeeded, Failed to copy if not. *)
Theorem bulk_copy_toasts
    (filtered : list ShortcutData) (outcome : ClipboardOutcome) (delay : Z)
    (scr : Screen) :
  filtered <> [] ->
  toast (performAll (sync (copyVisible filtered)) scr)
  = Some (Toast.mk (clock scr)
            ("Copied " ++ JS.numberToString (Z.of_nat (List.length filtered))
                       ++ " items!") success)
  /\ toast (play (copyVisible filtered) outcome delay scr)
     = Some (match outcome with
             | Resolved => Toast.mk (clock scr + delay) "Copied to clipboard!" success
             | Rejected => Toast.mk (clock scr + delay) "Failed to copy" error
             end).
Proof.
  intros H. unfold play, copyVisible. rewrite (length_eqb_0 _ H).
  cbn [sync settled copyToClipboard app performAll fold_left perform showToast].
  split; [reflexivity|].
  destruct outcome; cbn [fold_left perform showToast showToastOn toast];
    now destruct (elapse_fields delay
                    (showToastOn
                       ("Copied "
                          ++ JS.numberToString (Z.of_nat (List.length filtered))
                          ++ " items!") success scr)) as (-> & _).
Qed.

Lemma bulk_copy_toasts_witness :
  toast (play (copyVisible [mkShortcut "A1" "Hello" "english"]) Rejected 40
              (initialScreen 0))
  = Some (Toast.mk 40 "Failed to copy" error).
Proof.
  apply (bulk_copy_toasts [mkShortcut "A1" "Hello" "english"] Rejected 40
           (initialScreen 0)).
  discriminate.
Defined.

(** X21. The row at index [i] of page [currentPage] is the record at index
    [(currentPage - 1) * pageSize + i] of the filtered sequence; a page has
    no row at an index of [pageSize] or more. *)
Theorem row_of_page (l : list ShortcutData) (pageSize currentPage : Z) (i : nat) :
  0 < pageSize -> 1 <= currentPage ->
  nth_error (paginatedData l pageSize currentPage) i
  = if Z.of_nat i <? pageSize
    then nth_error l (Z.to_nat ((currentPage - 1) * pageSize) + i)
    else None.
Proof.
  intros Hs Hp. rewrite paginatedData_halfOpen by assumption.
  unfold halfOpen. rewrite nth_error_skipn, nth_error_firstn.
  replace (currentPage * pageSize) with ((currentPage - 1) * pageSize + pageSize)
    by ring.
  assert (0 <= (currentPage - 1) * pageSize) by nia.
  set (A := (currentPage - 1) * pageSize) in *.
  destruct (Z.ltb_spec (Z.of_nat i) pageSize);
    destruct (Nat.ltb_spec (Z.to_nat A + i) (Z.to_nat (A + pageSize)));
    try reflexivity; lia.
Qed.

Lemma row_of_page_witness :
  nth_error (paginatedData [mkShortcut "a" "1" "all"; mkShortcut "b" "2" "spanish";
                            mkShortcut "c" "3" "english"] 2 2) 0
  = Some (mkShortcut "c" "3" "english").
Proof.
  rewrite (row_of_page [mkShortcut "a" "1" "all"; mkShortcut "b" "2" "spanish";
                        mkShortcut "c" "3" "english"] 2 2 0 ltac:(lia) ltac:(lia)).
  reflexivity.
Defined.

(** ** Instances of the properties of the filter *)

Lemma search_narrows_witness :
  filteredData ascii_toLowerCase
    [mkShortcut "h1" "hola amigo" "spanish"; mkShortcut "g1" "good morning" "english"]
    all "HOLA"
  = filteredData ascii_toLowerCase
      (filteredData ascii_toLowerCase
         [mkShortcut "h1" "hola amigo" "spanish";
          mkShortcut "g1" "good morning" "english"] all "o")
      all "HOLA".
Proof.
  refine (proj1 (search_narrows ascii_toLowerCase
                   [mkShortcut "h1" "hola amigo" "spanish";
                    mkShortcut "g1" "good morning" "english"]
                   all "o" "HOLA" _ _)).
  - discriminate.
  - reflexivity.
Defined.

Lemma tabs_partition_results_witness :
  shownCount (filteredData ascii_toLowerCase
                [mkShortcut "h1" "hola amigo" "spanish";
                 mkShortcut "g1" "good morning" "english";
                 mkShortcut "e1" "ok" "all"] all "o")
  = shownCount (filteredData ascii_toLowerCase
                  [mkShortcut "h1" "hola amigo" "spanish";
                   mkShortcut "g1" "good morning" "english";
                   mkShortcut "e1" "ok" "all"] universal "o")
    + shownCount (filteredData ascii_toLowerCase
                    [mkShortcut "h1" "hola amigo" "spanish";
                     mkShortcut "g1" "good morning" "english";
                     mkShortcut "e1" "ok" "all"] spanish "o")
    + shownCount (filteredData ascii_toLowerCase
                    [mkShortcut "h1" "hola amigo" "spanish";
                     mkShortcut "g1" "good morning" "english";
                     mkShortcut "e1" "ok" "all"] english "o").
Proof.
  apply (tabs_partition_results ascii_toLowerCase
           [mkShortcut "h1" "hola amigo" "spanish";
            mkShortcut "g1" "good morning" "english";
            mkShortcut "e1" "ok" "all"] "o").
  repeat (apply Forall_cons;
          [first [left; reflexivity | right; left; reflexivity
                 | right; right; reflexivity]|]).
  apply Forall_nil.
Defined.

Lemma badge_agrees_with_tab_witness :
  sectionLabel (mkShortcut "e1" "ok" "all") = tabLabel universal.
Proof.
  apply (badge_agrees_with_tab ascii_toLowerCase
           [mkShortcut "h1" "hola amigo" "spanish"; mkShortcut "e1" "ok" "all"]
           universal "O" (mkShortcut "e1" "ok" "all")).
  - discriminate.
  - simpl. now left.
Defined.

Lemma unknown_tag_is_universal_by_label_only_witness :
  sectionLabel (mkShortcut "f1" "bonjour" "french") = "Universal".
Proof.
  apply (unknown_tag_is_universal_by_label_only ascii_toLowerCase
           [mkShortcut "f1" "bonjour" "french"] universal ""
           (mkShortcut "f1" "bonjour" "french")).
  unfold knownTag. simpl. intros [H|[H|H]]; discriminate H.
Defined.

(** ** Inputs that change nothing *)

(** X22. The reset watches the values, not the events: selecting the tab
    that is already active, or setting the search text to what it already
    is, leaves the component where it was, on the same page. *)
Theorem same_filter_keeps_page
    (toLowerCase : string -> string) (EXPANSIONS_DATA : list ShortcutData)
    (st : State) :
  dispatch toLowerCase EXPANSIONS_DATA (SelectTab (activeTab st)) st = st
  /\ dispatch toLowerCase EXPANSIONS_DATA (ChangeSearch (searchTerm st)) st = st.
Proof.
  assert (Ht : SectionFilter_eqb (activeTab st) (activeTab st) = true)
    by now apply SectionFilter_eqb_eq.
  destruct st as [txt tab page]. cbn in Ht.
  unfold dispatch, resetEffect, depsChanged. cbn.
  now rewrite Ht, String.eqb_refl.
Qed.
